(** * getit: source resolution and dispatch

    A shallow embedding of the resolution pipeline of the [getit] package
    (api.go, mappers.go, file.go, git.go, tar.go, zip.go, default.go):
    the mapper chain, URL parsing, first-match resolver selection and the
    [//] sub-directory split, together with the properties the design
    document states about them.

    Go strings are byte strings and are modelled as [string] (a list of
    [ascii] bytes).  Functions of the Go standard library that the package
    calls are either modelled below on the bytes ([strings], [regexp]) or
    taken as an interface ([net/url], [strconv], [os], [path/filepath]). *)

From Stdlib Require Import String Ascii List Bool Arith Lia Permutation.
Import ListNotations.
Open Scope list_scope.
Open Scope string_scope.

(* ================================================================= *)
(** ** Package [strings] *)

Module strings.

(** [strings.HasPrefix(s, prefix)]. *)
Fixpoint HasPrefix (s prefix : string) {struct prefix} : bool :=
  match prefix with
  | EmptyString => true
  | String p prefix' =>
      match s with
      | EmptyString => false
      | String c s' => Ascii.eqb c p && HasPrefix s' prefix'
      end
  end.

(** [s[n:]], for [n <= len(s)]. *)
Fixpoint drop (n : nat) (s : string) : string :=
  match n with
  | O => s
  | S n' => match s with
            | EmptyString => EmptyString
            | String _ s' => drop n' s'
            end
  end.

(** [s[:n]], for [n <= len(s)]. *)
Fixpoint take (n : nat) (s : string) : string :=
  match n with
  | O => EmptyString
  | S n' => match s with
            | EmptyString => EmptyString
            | String c s' => String c (take n' s')
            end
  end.

(** [strings.HasSuffix(s, suffix)]:
    [len(s) >= len(suffix) && s[len(s)-len(suffix):] == suffix]. *)
Definition HasSuffix (s suffix : string) : bool :=
  Nat.leb (String.length suffix) (String.length s)
  && String.eqb (drop (String.length s - String.length suffix) s) suffix.

(** [strings.Index(s, substr)]: the byte offset of the first instance of
    [substr] in [s]; Go's [-1] is [None]. *)
Fixpoint Index (s substr : string) : option nat :=
  if HasPrefix s substr then Some O
  else match s with
       | EmptyString => None
       | String _ s' => option_map S (Index s' substr)
       end.

(** [strings.Contains(s, substr)] is [Index(s, substr) >= 0]. *)
Definition Contains (s substr : string) : bool :=
  match Index s substr with Some _ => true | None => false end.

(** [strings.Cut(s, sep)]:
<<
    if i := Index(s, sep); i >= 0 {
        return s[:i], s[i+len(sep):], true
    }
    return s, "", false
>> *)
Definition Cut (s sep : string) : string * string * bool :=
  match Index s sep with
  | Some i => (take i s, drop (i + String.length sep) s, true)
  | None => (s, "", false)
  end.

(** [strings.ToLower(s)] on a string of ASCII bytes: the letters [A-Z]
    become [a-z].  Go maps every other rune with the Unicode tables; here
    bytes from 128 on are left alone, so the model is for ASCII input. *)
Definition lower_byte (c : ascii) : ascii :=
  if Ascii.leb "A" c && Ascii.leb c "Z"
  then ascii_of_nat (nat_of_ascii c + 32) else c.

Fixpoint ToLower (s : string) : string :=
  match s with
  | EmptyString => EmptyString
  | String c s' => String (lower_byte c) (ToLower s')
  end.

(** Whether every byte of [s] satisfies [p]. *)
Fixpoint all_bytes (p : ascii -> bool) (s : string) : bool :=
  match s with
  | EmptyString => true
  | String c s' => p c && all_bytes p s'
  end.

(** The longest prefix of [s] whose bytes satisfy [p], and what follows
    it. *)
Fixpoint span (p : ascii -> bool) (s : string) : string * string :=
  match s with
  | EmptyString => ("", "")
  | String c s' =>
      if p c then let (w, rest) := span p s' in (String c w, rest)
      else ("", s)
  end.

End strings.

(* ================================================================= *)
(** ** Package [regexp]

    The syntax of the patterns the package compiles, and Go's matching
    discipline for them: the match begins as early as possible in the
    input, and among the matches beginning there it is the one a
    backtracking search finds first (greedy repetition, alternatives
    left to right).

    The input is read byte by byte.  Go reads it rune by rune; the
    literals and classes of these patterns are ASCII, which no byte of a
    multi-byte rune is, and [.] is only used in [.*], which takes the
    whole run of bytes up to a newline either way. *)

Module regexp.

(** A character class is a list of inclusive byte ranges. *)
Definition class := list (ascii * ascii).

Inductive Regexp : Type :=
| Empty : Regexp                          (* matches the empty string   *)
| Lit : ascii -> Regexp                   (* a literal byte, [\.] or [t] *)
| Class : class -> Regexp                 (* [[a-z...]]                 *)
| AnyNotNL : Regexp                       (* [.]                        *)
| Bol : Regexp                            (* [^], at the beginning of text *)
| Seq : Regexp -> Regexp -> Regexp        (* [r1r2]                     *)
| Alt : Regexp -> Regexp -> Regexp        (* [r1|r2]                    *)
| Star : Regexp -> Regexp                 (* [r*], greedy               *)
| Group : nat -> Regexp -> Regexp.        (* [(r)], numbered from 1     *)

(** [r+] is [rr*] and [r?] is [r|] (prefer one over zero). *)
Definition Plus (r : Regexp) : Regexp := Seq r (Star r).
Definition Opt (r : Regexp) : Regexp := Alt r Empty.

(** A literal string, byte by byte. *)
Fixpoint Lits (s : string) : Regexp :=
  match s with
  | EmptyString => Empty
  | String c EmptyString => Lit c
  | String c s' => Seq (Lit c) (Lits s')
  end.

Definition in_range (c : ascii) (r : ascii * ascii) : bool :=
  Ascii.leb (fst r) c && Ascii.leb c (snd r).

Definition in_class (cs : class) (c : ascii) : bool :=
  existsb (in_range c) cs.

Definition newline : ascii := ascii_of_nat 10.

(** Text of the capturing groups matched so far, most recent first. *)
Definition captures := list (nat * string).

Fixpoint submatch (n : nat) (m : captures) : option string :=
  match m with
  | [] => None
  | (k, v) :: m' => if Nat.eqb k n then Some v else submatch n m'
  end.

Section Matcher.

Variable R : Type.

(** What remains to be matched after a sub-pattern: it is given the
    offset reached, the input left there and the captures. *)
Definition cont := nat -> string -> captures -> option R.

(** The loop of [r*], where [step] matches [r] once: take one more
    iteration when that leads to a match, otherwise stop here.  An
    iteration that consumes nothing is not repeated, so at most
    [len(s)] iterations are taken and that much [fuel] is enough. *)
Fixpoint star_loop (step : nat -> string -> captures -> cont -> option R)
  (k : cont) (fuel : nat) (i : nat) (s : string) (m : captures)
  {struct fuel} : option R :=
  match fuel with
  | O => k i s m
  | S fuel' =>
      match step i s m
              (fun i' s' m' =>
                 if Nat.ltb i i' then star_loop step k fuel' i' s' m'
                 else None)
      with
      | Some x => Some x
      | None => k i s m
      end
  end.

(** [run r i s m k]: match [r] at offset [i], where [s] is the input from
    [i] on, then continue with [k]; [None] when every way of matching [r]
    here makes [k] fail. *)
Fixpoint run (r : Regexp) (i : nat) (s : string) (m : captures) (k : cont)
  {struct r} : option R :=
  match r with
  | Empty => k i s m
  | Lit a =>
      match s with
      | String c s' => if Ascii.eqb c a then k (S i) s' m else None
      | EmptyString => None
      end
  | Class cs =>
      match s with
      | String c s' => if in_class cs c then k (S i) s' m else None
      | EmptyString => None
      end
  | AnyNotNL =>
      match s with
      | String c s' => if Ascii.eqb c newline then None else k (S i) s' m
      | EmptyString => None
      end
  | Bol => if Nat.eqb i 0 then k i s m else None
  | Seq r1 r2 => run r1 i s m (fun i' s' m' => run r2 i' s' m' k)
  | Alt r1 r2 =>
      match run r1 i s m k with
      | Some x => Some x
      | None => run r2 i s m k
      end
  | Star r1 => star_loop (run r1) k (String.length s) i s m
  | Group n r1 =>
      run r1 i s m
          (fun i' s' m' => k i' s' ((n, strings.take (i' - i) s) :: m'))
  end.

End Matcher.

Arguments star_loop {R} step k fuel i s m.
Arguments run {R} r i s m k.

(** A match: the offsets where it begins and ends, and the groups. *)
Record Match : Type := mkMatch
  { m_begin : nat; m_end : nat; m_groups : captures }.

(** The match of [r] that begins at offset [i] exactly. *)
Definition match_at (r : Regexp) (i : nat) (s : string) : option Match :=
  run r i s [] (fun j _ m => Some (mkMatch i j m)).

(** The leftmost match at or after offset [i]; [s] is the input from [i]
    on. *)
Fixpoint find_from (r : Regexp) (i : nat) (s : string) : option Match :=
  match match_at r i s with
  | Some mt => Some mt
  | None =>
      match s with
      | EmptyString => None
      | String _ s' => find_from r (S i) s'
      end
  end.

(** [re.MatchString(s)]: whether [s] contains any match of [re]. *)
Definition MatchString (re : Regexp) (s : string) : bool :=
  match find_from re 0 s with Some _ => true | None => false end.

(** A replacement template after [$] has been interpreted: literal text
    and references [$n] to numbered groups. *)
Inductive piece : Type :=
| Text : string -> piece
| Ref : nat -> piece.

Definition is_digit (c : ascii) : bool :=
  Ascii.leb "0" c && Ascii.leb c "9".

Definition is_name_char (c : ascii) : bool :=
  is_digit c || Ascii.eqb c "_"
  || (Ascii.leb "a" c && Ascii.leb c "z")
  || (Ascii.leb "A" c && Ascii.leb c "Z").

Definition digit_val (c : ascii) : nat := nat_of_ascii c - 48.

(** Scanner state of [template_pieces]: in literal text, just after a
    [$], or inside the name that follows a [$] (its value so far when it
    is a number, [None] when it has a non-digit). *)
Inductive tstate : Type :=
| InText : tstate
| AfterDollar : tstate
| InName : option nat -> tstate.

Definition end_name (v : option nat) : list piece :=
  match v with
  | Some n => [Ref n]
  | None => []                  (* a named group; the patterns have none *)
  end.

(** The template syntax of [Regexp.Expand] without the braced form
    [${name}]: [$$] is a literal [$], [$name] takes the longest run of
    letters, digits and underscores, a numeric name refers to the group
    of that index, and a [$] followed by no name is raw text. *)
Fixpoint template_pieces (st : tstate) (t : string) : list piece :=
  match t with
  | EmptyString =>
      match st with
      | InText => []
      | AfterDollar => [Text "$"]
      | InName v => end_name v
      end
  | String c t' =>
      match st with
      | InText =>
          if Ascii.eqb c "$" then template_pieces AfterDollar t'
          else Text (String c "") :: template_pieces InText t'
      | AfterDollar =>
          if Ascii.eqb c "$" then Text "$" :: template_pieces InText t'
          else if is_digit c then template_pieces (InName (Some (digit_val c))) t'
          else if is_name_char c then template_pieces (InName None) t'
          else Text "$" :: Text (String c "") :: template_pieces InText t'
      | InName v =>
          if is_digit c then
            template_pieces
              (InName (option_map (fun n => 10 * n + digit_val c) v)) t'
          else if is_name_char c then template_pieces (InName None) t'
          else if Ascii.eqb c "$" then (end_name v ++ template_pieces AfterDollar t')%list
          else (end_name v ++ Text (String c "") :: template_pieces InText t')%list
      end
  end.

(** The text of group [n] of a match of [src]; group 0 is the whole
    match, a group that did not take part is empty. *)
Definition group_text (src : string) (mt : Match) (n : nat) : string :=
  match n with
  | O => strings.take (m_end mt - m_begin mt) (strings.drop (m_begin mt) src)
  | _ => match submatch n (m_groups mt) with
         | Some v => v
         | None => ""
         end
  end.

Fixpoint expand_pieces (ps : list piece) (src : string) (mt : Match) : string :=
  match ps with
  | [] => ""
  | Text t :: ps' => t ++ expand_pieces ps' src mt
  | Ref n :: ps' => group_text src mt n ++ expand_pieces ps' src mt
  end.

Definition expand (template src : string) (mt : Match) : string :=
  expand_pieces (template_pieces InText template) src mt.

(** The loop of [Regexp.replaceAll].  [lastMatchEnd] is the end of the
    most recent match, [searchPos] where the next match is looked for.
    Every round moves [searchPos] forward, so [len(src) + 1] rounds
    suffice.  The width of the rune at [searchPos] is taken to be one
    byte. *)
Fixpoint replaceAll (fuel : nat) (re : Regexp) (src repl : string)
  (lastMatchEnd searchPos : nat) (buf : string) : string :=
  match fuel with
  | O => buf ++ strings.drop lastMatchEnd src
  | S fuel' =>
      if Nat.leb searchPos (String.length src) then
        match find_from re searchPos (strings.drop searchPos src) with
        | None => buf ++ strings.drop lastMatchEnd src
        | Some a =>
            let buf :=
              buf ++ strings.take (m_begin a - lastMatchEnd)
                       (strings.drop lastMatchEnd src) in
            let buf :=
              if Nat.ltb lastMatchEnd (m_end a) || Nat.eqb (m_begin a) 0
              then buf ++ expand repl src a
              else buf in
            let width := if Nat.ltb searchPos (String.length src) then 1 else 0 in
            let searchPos' :=
              if Nat.ltb (m_end a) (searchPos + width) then searchPos + width
              else if Nat.ltb (m_end a) (searchPos + 1) then searchPos + 1
              else m_end a in
            replaceAll fuel' re src repl (m_end a) searchPos' buf
        end
      else buf ++ strings.drop lastMatchEnd src
  end.

(** [re.ReplaceAllString(src, repl)]. *)
Definition ReplaceAllString (re : Regexp) (src repl : string) : string :=
  replaceAll (String.length src + 2) re src repl 0 0 "".

End regexp.

(* ================================================================= *)
(** ** The data model (api.go) *)

(** [url.Userinfo] and [url.URL] of package [net/url], field by field. *)
Record Userinfo : Type := mkUserinfo
  { username : string; password : string; passwordSet : bool }.

Record url_URL : Type := mkURL
  { Scheme : string;
    Opaque : string;
    User : option Userinfo;
    Host : string;
    Path : string;
    RawPath : string;
    OmitHost : bool;
    ForceQuery : bool;
    RawQuery : string;
    Fragment : string;
    RawFragment : string }.

(** The zero value [url.URL{}]. *)
Definition zeroURL : url_URL :=
  mkURL "" "" None "" "" "" false false "" "" "".

(** [nu := *u; nu.Path = base]. *)
Definition with_Path (u : url_URL) (base : string) : url_URL :=
  mkURL (Scheme u) (Opaque u) (User u) (Host u) base (RawPath u)
        (OmitHost u) (ForceQuery u) (RawQuery u) (Fragment u) (RawFragment u).

(** [type Mapper func(source string) (string, bool)]. *)
Definition Mapper := string -> string * bool.

(** [type Resolver interface]: its [Match] method.  [Fetch] performs the
    transfer and takes no part in resolution. *)
Record Resolver : Type := mkResolver
  { Match : url_URL -> bool }.

(** [type Source struct { URL *url.URL; SubDir string }]; a nil pointer is
    [None]. *)
Record Source : Type := mkSource
  { URL : option url_URL; SubDir : string }.

(** The zero value [Source{}]. *)
Definition zeroSource : Source := mkSource None "".

Record Fetcher : Type := New
  { resolvers : list Resolver; mappers : list Mapper }.

(* ================================================================= *)
(** ** The standard library as used by the package *)

(** [url.Parse], [URL.String] and the [%q] verb ([strconv.Quote]);
    [url.Parse] returning an error is [None]. *)
Class NetLib : Type :=
  { url_Parse : string -> option url_URL;
    URL_String : url_URL -> string;
    strconv_Quote : string -> string }.

(** [os.FileInfo], as far as [FilePath] looks at it. *)
Record FileInfo : Type := mkFileInfo { IsDir : bool }.

(** The file system calls of [FilePath]; a call returning an error is
    [None]. *)
Class FileSystem : Type :=
  { os_UserHomeDir : option string;
    filepath_Join : string -> string -> string;
    filepath_IsAbs : string -> bool;
    filepath_Abs : string -> option string;
    os_Stat : string -> option FileInfo;
    filepath_EvalSymlinks : string -> option string }.

(* ================================================================= *)
(** ** Mappers (mappers.go, file.go) *)

(** [GitHub] maps shorthand GitHub URLs with no scheme.
<<
    if strings.HasPrefix(source, "github.com/") {
        return "git+https://" + source, true
    }
    if strings.HasPrefix(source, "https://github.com/") {
        return "git+" + source, true
    }
    return "", false
>> *)
Definition GitHub : Mapper := fun source =>
  if strings.HasPrefix source "github.com/" then
    ("git+https://" ++ source, true)
  else if strings.HasPrefix source "https://github.com/" then
    ("git+" ++ source, true)
  else ("", false).

(** The class [[a-zA-Z0-9_-]]. *)
Definition word : regexp.class :=
  [("a", "z"); ("A", "Z"); ("0", "9"); ("_", "_"); ("-", "-")]%char.

(** The pattern of [gitHubOrgRe], token by token:
<<
    ^ ( [a-zA-Z0-9_-]+ / [a-zA-Z0-9_-]+ ) ( [?#] .* )
>> *)
Definition gitHubOrgRe : regexp.Regexp :=
  regexp.Seq regexp.Bol
    (regexp.Seq
       (regexp.Group 1
          (regexp.Seq (regexp.Plus (regexp.Class word))
             (regexp.Seq (regexp.Lit "/") (regexp.Plus (regexp.Class word)))))
       (regexp.Group 2
          (regexp.Seq (regexp.Class [("?", "?"); ("#", "#")]%char)
             (regexp.Star regexp.AnyNotNL)))).

(** [GitHubOrgRepo] maps shorthand GitHub URLs with org/repo.
<<
    if gitHubOrgRe.MatchString(source) {
        return gitHubOrgRe.ReplaceAllString(source,
                   `git+https://github.com/$1$2`), true
    }
    return "", false
>> *)
Definition GitHubOrgRepo : Mapper := fun source =>
  if regexp.MatchString gitHubOrgRe source then
    (regexp.ReplaceAllString gitHubOrgRe source "git+https://github.com/$1$2",
     true)
  else ("", false).

(** The pattern of [singleGitHubOrg], token by token:
<<
    ^ ( [a-zA-Z0-9_-]+ ) ( [#?] .* )
>> *)
Definition singleGitHubOrg : regexp.Regexp :=
  regexp.Seq regexp.Bol
    (regexp.Seq
       (regexp.Group 1 (regexp.Plus (regexp.Class word)))
       (regexp.Group 2
          (regexp.Seq (regexp.Class [("#", "#"); ("?", "?")]%char)
             (regexp.Star regexp.AnyNotNL)))).

(** [SingleGitHubOrg] maps shorthand GitHub URLs given as just the repo.
<<
    return func(source string) (string, bool) {
        if singleGitHubOrg.MatchString(source) {
            return singleGitHubOrg.ReplaceAllString(source,
                       `git+https://github.com/`+org+`/$1$2`), true
        }
        return "", false
    }
>> *)
Definition SingleGitHubOrg (org : string) : Mapper := fun source =>
  if regexp.MatchString singleGitHubOrg source then
    (regexp.ReplaceAllString singleGitHubOrg source
       ("git+https://github.com/" ++ org ++ "/$1$2"),
     true)
  else ("", false).

Section FilePathMapper.

Context {fs : FileSystem}.

(** [FilePath] maps filesystem paths to [file://] URLs.  The path must
    exist and be a directory.  Each [if err != nil { return "", false }]
    of the source is a [None] branch here. *)
Definition FilePath : Mapper := fun source =>
  if String.eqb source "" then ("", false)
  else if strings.HasPrefix source "file://" then (source, true)
  else
    let path := source in
    let after_home :=
      if strings.HasPrefix path "~/" then
        match os_UserHomeDir with
        | None => None
        | Some home => Some (filepath_Join home (strings.drop 2 path))
        end
      else Some path in
    match after_home with
    | None => ("", false)
    | Some path =>
        let after_abs :=
          if negb (filepath_IsAbs path) then filepath_Abs path
          else Some path in
        match after_abs with
        | None => ("", false)
        | Some path =>
            match os_Stat path with
            | None => ("", false)
            | Some info =>
                if negb (IsDir info) then ("", false)
                else
                  match filepath_EvalSymlinks path with
                  | None => ("", false)
                  | Some path => ("file://" ++ path, true)
                  end
            end
        end
    end.

End FilePathMapper.

(* ================================================================= *)
(** ** Resolvers (file.go, git.go, tar.go, zip.go) *)

(** [File.Match]: [return source.Scheme == "file"]. *)
Definition File : Resolver :=
  mkResolver (fun source => String.eqb (Scheme source) "file").

(** [Git.Match] of git.go:
<<
    return source.Scheme != "https" && source.Scheme != "git+ssh" &&
           source.Scheme != "git"
>> *)
Definition Git : Resolver :=
  mkResolver (fun source =>
    negb (String.eqb (Scheme source) "https")
    && negb (String.eqb (Scheme source) "git+ssh")
    && negb (String.eqb (Scheme source) "git")).

(** The pattern of [tarRe]:
<<
    (\.tar(\.[a-z]+)?)|(\.tbz|\.tbz2|\.txz|\.tzstd|\.tlz|\.tZ|\.tgz)
>> *)
Definition tarRe : regexp.Regexp :=
  regexp.Alt
    (regexp.Group 1
       (regexp.Seq (regexp.Lits ".tar")
          (regexp.Opt
             (regexp.Group 2
                (regexp.Seq (regexp.Lit ".")
                   (regexp.Plus (regexp.Class [("a", "z")]%char)))))))
    (regexp.Group 3
       (regexp.Alt (regexp.Lits ".tbz")
       (regexp.Alt (regexp.Lits ".tbz2")
       (regexp.Alt (regexp.Lits ".txz")
       (regexp.Alt (regexp.Lits ".tzstd")
       (regexp.Alt (regexp.Lits ".tlz")
       (regexp.Alt (regexp.Lits ".tZ")
                   (regexp.Lits ".tgz")))))))).

(** [TAR.Match]: [return tarRe.MatchString(source.Path)]. *)
Definition TAR : Resolver :=
  mkResolver (fun source => regexp.MatchString tarRe (Path source)).

(** [compressionFlag]: the [tar] option for the compression a path's
    suffix names, the first case that applies.
<<
    lower := strings.ToLower(path)
    switch {
    case strings.HasSuffix(lower, ".tar.gz"), strings.HasSuffix(lower, ".tgz"):
        return "-z"
    case strings.HasSuffix(lower, ".tar.bz2"), strings.HasSuffix(lower, ".tbz"),
         strings.HasSuffix(lower, ".tbz2"):
        return "-j"
    case strings.HasSuffix(lower, ".tar.xz"), strings.HasSuffix(lower, ".txz"):
        return "-J"
    case strings.HasSuffix(lower, ".tar.zst"), strings.HasSuffix(lower, ".tzstd"):
        return "--zstd"
    case strings.HasSuffix(lower, ".tar.lz"), strings.HasSuffix(lower, ".tlz"):
        return "--lzip"
    case strings.HasSuffix(lower, ".tar.Z"), strings.HasSuffix(lower, ".tZ"):
        return "-Z"
    default:
        return "-a"
    }
>> *)
Definition compressionFlag (path : string) : string :=
  let lower := strings.ToLower path in
  if strings.HasSuffix lower ".tar.gz" || strings.HasSuffix lower ".tgz"
  then "-z"
  else if strings.HasSuffix lower ".tar.bz2" || strings.HasSuffix lower ".tbz"
          || strings.HasSuffix lower ".tbz2"
  then "-j"
  else if strings.HasSuffix lower ".tar.xz" || strings.HasSuffix lower ".txz"
  then "-J"
  else if strings.HasSuffix lower ".tar.zst"
          || strings.HasSuffix lower ".tzstd"
  then "--zstd"
  else if strings.HasSuffix lower ".tar.lz" || strings.HasSuffix lower ".tlz"
  then "--lzip"
  else if strings.HasSuffix lower ".tar.Z" || strings.HasSuffix lower ".tZ"
  then "-Z"
  else "-a".

(** The arguments [TAR.Fetch] gives to [tar]:
<<
    args := []string{"-x", "-C", dest}
    args = append(args, compressionFlag(source.URL.Path))
>> *)
Definition TAR_Fetch_args (path dest : string) : list string :=
  (["-x"; "-C"; dest] ++ [compressionFlag path])%list.

(** [ZIP.Match]: [return strings.HasSuffix(source.Path, ".zip")]. *)
Definition ZIP : Resolver :=
  mkResolver (fun source => strings.HasSuffix (Path source) ".zip").

(* ================================================================= *)
(** ** Executions of [Resolve]

    [Resolve] calls the mappers, [url.Parse] and the resolvers' [Match] in
    a definite order and may panic.  An execution is the log of those
    calls, oldest first, with the way it ended. *)

Inductive event : Type :=
| MapperCall : nat -> string -> event      (* mapper number, its argument  *)
| ParseCall : string -> event              (* argument of [url.Parse]      *)
| MatchCall : nat -> url_URL -> event.     (* resolver number, its argument *)

Inductive outcome (A : Type) : Type :=
| Returned : A -> outcome A
| Panicked : string -> outcome A.

Arguments Returned {A} _.
Arguments Panicked {A} _.

Definition Exec (A : Type) : Type := list event * outcome A.

Definition ret {A : Type} (a : A) : Exec A := ([], Returned a).

Definition bind {A B : Type} (m : Exec A) (f : A -> Exec B) : Exec B :=
  match m with
  | (log, Returned a) => let (log', r) := f a in ((log ++ log')%list, r)
  | (log, Panicked msg) => (log, Panicked msg)
  end.

(** A logged call that yields [v]. *)
Definition call {A : Type} (e : event) (v : A) : Exec A := ([e], Returned v).

Definition panic {A : Type} (msg : string) : Exec A := ([], Panicked msg).

Notation "x <- m ;; k" := (bind m (fun x => k))
  (at level 61, m at next level, right associativity).

(** Go's [error]: [nil] is [None], otherwise the message. *)
Definition error := option string.

Section Resolution.

Context {lib : NetLib}.

(** The first loop of [Resolve]; mapper [i] is the head of [ms].
<<
    for _, mapper := range f.mappers {
        if mapped, ok := mapper(source); ok {
            source = mapped
            if _, err := url.Parse(source); err != nil {
                panic("mapper did not produce a valid URL: " + source)
            }
            break
        }
    }
>> *)
Fixpoint Resolve_mappers (ms : list Mapper) (i : nat) (source : string)
  : Exec string :=
  match ms with
  | [] => ret source
  | mapper :: ms' =>
      r <- call (MapperCall i source) (mapper source) ;;
      let (mapped, ok) := r : string * bool in
      if ok then
        let source := mapped in
        p <- call (ParseCall source) (url_Parse source) ;;
        match p with
        | None => panic ("mapper did not produce a valid URL: " ++ source)
        | Some _ => ret source
        end
      else Resolve_mappers ms' (S i) source
  end.

(** The [Source] built for a matched URL: the path is cut at the first
    [//], what follows is the sub-directory.
<<
    base, subdir, ok := strings.Cut(u.Path, "//")
    if ok {
        nu := *u
        nu.Path = base
        u = &nu
    }
    ... Source{URL: u, SubDir: subdir}
>> *)
Definition split_subdir (u : url_URL) : Source :=
  let '(base, subdir, ok) := strings.Cut (Path u) "//" in
  let u := if ok : bool then with_Path u base else u in
  mkSource (Some u) subdir.

(** The second loop of [Resolve] and the return after it; resolver [i] is
    the head of [rs].
<<
    for _, resolver := range f.resolvers {
        if !resolver.Match(u) {
            continue
        }
        ... (the cut at "//", see [split_subdir])
        return resolver, Source{URL: u, SubDir: subdir}, nil
    }
    return nil, Source{}, fmt.Errorf("unsupported source: %s", u)
>> *)
Fixpoint Resolve_resolvers (rs : list Resolver) (i : nat) (u : url_URL)
  : Exec (option Resolver * Source * error) :=
  match rs with
  | [] => ret (None, zeroSource, Some ("unsupported source: " ++ URL_String u))
  | resolver :: rs' =>
      ok <- call (MatchCall i u) (Match resolver u) ;;
      if negb ok then Resolve_resolvers rs' (S i) u
      else
        ret (Some resolver, split_subdir u, None)
  end.

(** [Fetcher.Resolve]: a source string to a resolver and a [Source]. *)
Definition Resolve (f : Fetcher) (source : string)
  : Exec (option Resolver * Source * error) :=
  source <- Resolve_mappers (mappers f) 0 source ;;
  p <- call (ParseCall source) (url_Parse source) ;;
  match p with
  | None =>
      ret (None, zeroSource, Some ("invalid source " ++ strconv_Quote source))
  | Some u => Resolve_resolvers (resolvers f) 0 u
  end.

End Resolution.

(* ================================================================= *)
(** ** The default fetcher (default.go) *)

Section DefaultFetcher.

Context {fs : FileSystem}.

Definition Default : Fetcher :=
  New [File; Git; TAR; ZIP]
      [GitHub; GitHubOrgRepo; FilePath].

End DefaultFetcher.

(* ================================================================= *)
(** ** The other revision of [Git.Match]

    The repository holds a second copy of git.go (the one with
    [convertGitURL]) whose [Match] tests the schemes positively. *)

Module git_rev2.

(** [Git.Match] of that revision:
<<
    return source.Scheme == "git+https" || source.Scheme == "git+ssh" ||
           source.Scheme == "git"
>> *)
Definition Git : Resolver :=
  mkResolver (fun source =>
    String.eqb (Scheme source) "git+https"
    || String.eqb (Scheme source) "git+ssh"
    || String.eqb (Scheme source) "git").

Section DefaultFetcher.

Context {fs : FileSystem}.

Definition Default : Fetcher :=
  New [File; Git; TAR; ZIP]
      [GitHub; GitHubOrgRepo; FilePath].

End DefaultFetcher.

End git_rev2.

(* ================================================================= *)
(** ** An instance of the library interfaces

    A parser for URLs written with letters, digits and the punctuation
    [- . _ ~ / : ? # + = &] only, with at most one [#], where nothing is
    percent-encoded and the authority is a bare host name.  It follows
    the steps of [url.Parse] on such input and rejects everything else.
    Together with a small directory tree it lets the definitions above
    be run. *)

Module plain.

Definition is_alpha (c : ascii) : bool :=
  (Ascii.leb "a" c && Ascii.leb c "z") || (Ascii.leb "A" c && Ascii.leb c "Z").

Definition is_plain (c : ascii) : bool :=
  is_alpha c || regexp.is_digit c
  || existsb (Ascii.eqb c) ["-"; "."; "_"; "~"; "/"; ":"; "?"; "#"; "+"; "="; "&"]%char.

Fixpoint count_byte (b : ascii) (s : string) : nat :=
  match s with
  | EmptyString => 0
  | String c s' => (if Ascii.eqb c b then 1 else 0) + count_byte b s'
  end.

Definition lower_byte (c : ascii) : ascii :=
  if Ascii.leb "A" c && Ascii.leb c "Z"
  then ascii_of_nat (nat_of_ascii c + 32) else c.

Fixpoint ToLower (s : string) : string :=
  match s with
  | EmptyString => EmptyString
  | String c s' => String (lower_byte c) (ToLower s')
  end.

(** [getScheme]: [None] is the error [missing protocol scheme]. *)
Fixpoint getScheme_loop (i : nat) (rawURL rest : string)
  : option (string * string) :=
  match rest with
  | EmptyString => Some ("", rawURL)
  | String c rest' =>
      if is_alpha c then getScheme_loop (S i) rawURL rest'
      else if regexp.is_digit c || existsb (Ascii.eqb c) ["+"; "-"; "."]%char
      then if Nat.eqb i 0 then Some ("", rawURL)
           else getScheme_loop (S i) rawURL rest'
      else if Ascii.eqb c ":"
      then if Nat.eqb i 0 then None
           else Some (strings.take i rawURL, rest')
      else Some ("", rawURL)
  end.

Definition getScheme (rawURL : string) : option (string * string) :=
  getScheme_loop 0 rawURL rawURL.

Definition parse_rest (scheme rest rawQuery fragment : string)
  (forceQuery : bool) : option url_URL :=
  if negb (strings.HasPrefix rest "/") && negb (String.eqb scheme "") then
    Some (mkURL scheme rest None "" "" "" false forceQuery rawQuery
                fragment "")
  else if negb (strings.HasPrefix rest "/")
          && strings.Contains (fst (fst (strings.Cut rest "/"))) ":" then
    None
  else if (negb (String.eqb scheme "") || negb (strings.HasPrefix rest "///"))
          && strings.HasPrefix rest "//" then
    let authority := strings.drop 2 rest in
    let '(host, path) :=
      match strings.Index authority "/" with
      | Some i => (strings.take i authority, strings.drop i authority)
      | None => (authority, "")
      end in
    if strings.Contains host ":" then None
    else Some (mkURL scheme "" None host path "" false forceQuery rawQuery
                     fragment "")
  else
    Some (mkURL scheme "" None "" rest ""
                (negb (String.eqb scheme "") && strings.HasPrefix rest "/")
                forceQuery rawQuery fragment "").

Definition Parse (rawURL : string) : option url_URL :=
  if negb (strings.all_bytes is_plain rawURL) then None
  else if Nat.ltb 1 (count_byte "#" rawURL) then None
  else
    let '(u, frag, _) := strings.Cut rawURL "#" in
    match getScheme u with
    | None => None
    | Some (scheme, rest) =>
        let scheme := ToLower scheme in
        if strings.HasSuffix rest "?" && Nat.eqb (count_byte "?" rest) 1 then
          parse_rest scheme (strings.take (String.length rest - 1) rest)
                     "" frag true
        else
          let '(rest, rawQuery, _) := strings.Cut rest "?" in
          parse_rest scheme rest rawQuery frag false
    end.

Definition URLString (u : url_URL) : string :=
  let buf := if String.eqb (Scheme u) "" then "" else Scheme u ++ ":" in
  let buf :=
    if negb (String.eqb (Opaque u) "") then buf ++ Opaque u
    else
      let buf :=
        if negb (String.eqb (Scheme u) "") || negb (String.eqb (Host u) "")
        then
          if OmitHost u && String.eqb (Host u) "" then buf
          else
            (if negb (String.eqb (Host u) "") || negb (String.eqb (Path u) "")
             then buf ++ "//" else buf) ++ Host u
        else buf in
      let buf :=
        if negb (String.eqb (Path u) "")
           && negb (strings.HasPrefix (Path u) "/")
           && negb (String.eqb (Host u) "")
        then buf ++ "/" else buf in
      let buf :=
        if String.eqb buf ""
           && strings.Contains (fst (fst (strings.Cut (Path u) "/"))) ":"
        then "./" else buf in
      buf ++ Path u in
  let buf :=
    if ForceQuery u || negb (String.eqb (RawQuery u) "")
    then buf ++ "?" ++ RawQuery u else buf in
  if String.eqb (Fragment u) "" then buf else buf ++ "#" ++ Fragment u.

(** [strconv.Quote] on text that needs no escape. *)
Definition Quote (s : string) : string :=
  String (ascii_of_nat 34) (s ++ String (ascii_of_nat 34) "").

#[export] Instance lib : NetLib :=
  {| url_Parse := Parse; URL_String := URLString; strconv_Quote := Quote |}.

(** A directory tree: [/work] is the working directory and holds the
    directory [proj] and the file [notes.txt]; the home directory is
    [/home/u] and holds the directory [src]; [/srv/link] is a symbolic
    link to the directory [/srv/data]. *)
Definition directories : list string :=
  ["/work"; "/work/proj"; "/home/u"; "/home/u/src"; "/srv"; "/srv/data"].

Definition files : list string := ["/work/notes.txt"].

Definition mem (p : string) (l : list string) : bool := existsb (String.eqb p) l.

Definition Stat (p : string) : option FileInfo :=
  if mem p directories || String.eqb p "/srv/link" then Some (mkFileInfo true)
  else if mem p files then Some (mkFileInfo false)
  else None.

Definition EvalSymlinks (p : string) : option string :=
  if String.eqb p "/srv/link" then Some "/srv/data"
  else if mem p directories || mem p files then Some p
  else None.

#[export] Instance fs : FileSystem :=
  {| os_UserHomeDir := Some "/home/u";
     filepath_Join := fun a b => a ++ "/" ++ b;
     filepath_IsAbs := fun p => strings.HasPrefix p "/";
     filepath_Abs := fun p => Some ("/work/" ++ p);
     os_Stat := Stat;
     filepath_EvalSymlinks := EvalSymlinks |}.

(** The same tree for a process whose home directory cannot be found. *)
Definition fs_no_home : FileSystem :=
  {| os_UserHomeDir := None;
     filepath_Join := fun a b => a ++ "/" ++ b;
     filepath_IsAbs := fun p => strings.HasPrefix p "/";
     filepath_Abs := fun p => Some ("/work/" ++ p);
     os_Stat := Stat;
     filepath_EvalSymlinks := EvalSymlinks |}.

End plain.

(* ================================================================= *)
(** ** The statements of the design document *)

(** A mapper reports a match on [source]. *)
Definition accepts (source : string) (m : Mapper) : bool := snd (m source).

(** The candidate URL: the output of the first mapper, in registration
    order, that reports a match on the original input, and the input
    itself when none does. *)
Definition candidate (ms : list Mapper) (source : string) : string :=
  match find (accepts source) ms with
  | Some m => fst (m source)
  | None => source
  end.

(** The first resolver, in registration order, whose [Match] is true. *)
Definition first_resolver (rs : list Resolver) (u : url_URL)
  : option Resolver :=
  find (fun r => Match r u) rs.

(** [sep] occurs in [s], and its first occurrence is between [base] and
    [rest]. *)
Definition first_occurrence (s sep base rest : string) : Prop :=
  s = base ++ sep ++ rest
  /\ forall pre post, s = pre ++ sep ++ post ->
                      String.length base <= String.length pre.

(** [sep] does not occur in [s]. *)
Definition absent (s sep : string) : Prop :=
  forall pre post, s <> pre ++ sep ++ post.

(** [s] occurs somewhere in [t]. *)
Definition occurs_in (s t : string) : Prop :=
  exists pre post, t = pre ++ s ++ post.

(** A path segment of the org/repo shorthand: [[A-Za-z0-9_-]+]. *)
Definition is_segment (w : string) : Prop :=
  w <> "" /\ strings.all_bytes (regexp.in_class word) w = true.

(** The shorthand [<org>/<repo>] with exactly two segments, followed by
    [?] or [#] and the rest of the query or fragment. *)
Definition org_repo_query (source : string) : Prop :=
  exists org repo mark rest,
    source = org ++ "/" ++ repo ++ String mark rest
    /\ is_segment org /\ is_segment repo
    /\ (mark = "?" \/ mark = "#")%char.

(** The shorthand with nothing after the two segments. *)
Definition org_repo_bare (source : string) : Prop :=
  exists org repo,
    source = org ++ "/" ++ repo /\ is_segment org /\ is_segment repo.

(** The bytes [.] matches. *)
Definition not_newline (c : ascii) : bool := negb (Ascii.eqb c regexp.newline).

(** The class [[?#]]. *)
Definition query_mark : regexp.class := [("?", "?"); ("#", "#")]%char.

(** A scan for the shorthand with a query or fragment: the two
    segments, the mark, the text after it up to the end of the line, and
    what is left. *)
Definition org_repo_split (source : string)
  : option (string * string * ascii * string * string) :=
  let (org, r1) := strings.span (regexp.in_class word) source in
  match org, r1 with
  | String _ _, String slash r2 =>
      if Ascii.eqb slash "/" then
        let (repo, r3) := strings.span (regexp.in_class word) r2 in
        match repo, r3 with
        | String _ _, String mark r4 =>
            if regexp.in_class query_mark mark then
              let (q, tail) := strings.span not_newline r4 in
              Some (org, repo, mark, q, tail)
            else None
        | _, _ => None
        end
      else None
  | _, _ => None
  end.

(** The tar extensions: [.tar], optionally followed by a dot and
    lowercase letters, and the short forms. *)
Definition lowercase (w : string) : Prop :=
  w <> "" /\ strings.all_bytes (regexp.in_class [("a", "z")]%char) w = true.

Definition short_tar_exts : list string :=
  [".tbz"; ".tbz2"; ".txz"; ".tzstd"; ".tlz"; ".tZ"; ".tgz"].

Inductive tar_ext : string -> Prop :=
| tar_plain : tar_ext ".tar"
| tar_dotted : forall w, lowercase w -> tar_ext (".tar." ++ w)
| tar_short : forall e, In e short_tar_exts -> tar_ext e.

(** The path contains, anywhere, a substring that is a tar extension. *)
Definition contains_tar_ext (path : string) : Prop :=
  exists e, tar_ext e /\ occurs_in e path.

(** The literal every tar extension begins with, one per alternative. *)
Definition tar_literals : list string := ".tar" :: short_tar_exts.

Definition has_tar_literal (s : string) : bool :=
  existsb (strings.HasPrefix s) tar_literals.

Section FilePathStatement.

Context {fs : FileSystem}.

(** The absolute path [FilePath] looks up for [source]: [~/] is replaced
    by the home directory, and a path that is not absolute is made so. *)
Inductive expanded (source : string) : string -> Prop :=
| expanded_home : forall home,
    strings.HasPrefix source "~/" = true ->
    os_UserHomeDir = Some home ->
    expanded source (filepath_Join home (strings.drop 2 source))
| expanded_same :
    strings.HasPrefix source "~/" = false ->
    expanded source source.

Inductive absolute_of (source : string) : string -> Prop :=
| absolute_already : forall p,
    expanded source p -> filepath_IsAbs p = true -> absolute_of source p
| absolute_made : forall p q,
    expanded source p -> filepath_IsAbs p = false ->
    filepath_Abs p = Some q -> absolute_of source q.

(** The home directory is needed and cannot be found. *)
Definition home_lookup_fails (source : string) : Prop :=
  strings.HasPrefix source "~/" = true /\ os_UserHomeDir = None.

End FilePathStatement.

(** The shorthand [<repo>], one segment, followed by [?] or [#] and the
    rest of the query or fragment. *)
Definition repo_query (source : string) : Prop :=
  exists repo mark rest,
    source = repo ++ String mark rest
    /\ is_segment repo /\ (mark = "?" \/ mark = "#")%char.

(** The class [[#?]]. *)
Definition hash_mark : regexp.class := [("#", "#"); ("?", "?")]%char.

(** A scan for the one-segment shorthand: the segment, the mark, the
    text after it up to the end of the line, and what is left. *)
Definition repo_split (source : string)
  : option (string * ascii * string * string) :=
  let (repo, r1) := strings.span (regexp.in_class word) source in
  match repo, r1 with
  | String _ _, String mark r2 =>
      if regexp.in_class hash_mark mark then
        let (q, tail) := strings.span not_newline r2 in
        Some (repo, mark, q, tail)
      else None
  | _, _ => None
  end.

(** No byte of [s] is [$]. *)
Definition no_dollar (s : string) : Prop :=
  strings.all_bytes (fun c => negb (Ascii.eqb c "$")) s = true.

(** Every byte of [s] is below 128. *)
Definition ascii_only (s : string) : Prop :=
  strings.all_bytes (fun c => Nat.ltb (nat_of_ascii c) 128) s = true.

(** No byte of [s] is an upper-case letter. *)
Definition not_upper (c : ascii) : bool :=
  negb (Ascii.leb "A" c && Ascii.leb c "Z").

(** [s] is written like a path: it begins with [/], [~] or [.]. *)
Definition path_like (s : string) : Prop :=
  exists c t, s = String c t /\ (c = "/" \/ c = "~" \/ c = ".")%char.

(** [s] ends with [suffix]. *)
Definition ends_with (s suffix : string) : Prop :=
  exists pre, s = pre ++ suffix.

(** The schemes of the [Git] resolver. *)
Definition git_schemes : list string := ["git+https"; "git+ssh"; "git"].

(** The options [compressionFlag] can return. *)
Definition compression_flags : list string :=
  ["-z"; "-j"; "-J"; "--zstd"; "--lzip"; "-a"].

(** Whether an optional result is present. *)
Definition is_some {A : Type} (o : option A) : bool :=
  match o with Some _ => true | None => false end.

(** The events of a log, by kind. *)
Definition parsed (log : list event) (s : string) : Prop :=
  In (ParseCall s) log.

Definition mapper_called (log : list event) (i : nat) (s : string) : Prop :=
  In (MapperCall i s) log.

Definition match_called (log : list event) (i : nat) (u : url_URL) : Prop :=
  In (MatchCall i u) log.

(** Stub collaborators for worked resolutions: two resolvers with
    overlapping [Match] predicates, and two mappers that both match every
    input. *)
Definition http_only : Resolver :=
  mkResolver (fun u => String.eqb (Scheme u) "http").

Definition any_path : Resolver :=
  mkResolver (fun u => negb (String.eqb (Path u) "")).

Definition upper : Mapper := fun s => ("http://first/" ++ s, true).

Definition lower : Mapper := fun s => ("http://second/" ++ s, true).

(** The URLs the package's tests build: [&url.URL{Path: p}] and
    [&url.URL{Scheme: sch, Host: "github.com", Path: "/user/repo"}]. *)
Definition path_only (p : string) : url_URL :=
  mkURL "" "" None "" p "" false false "" "" "".

Definition scheme_only (sch : string) : url_URL :=
  mkURL sch "" None "github.com" "/user/repo" "" false false "" "" "".

(* ================================================================= *)
(** * Properties *)

(** ** Strings *)

Lemma append_assoc (a b c : string) : (a ++ b) ++ c = a ++ b ++ c.
Proof. induction a as [|x a IH]; simpl; [reflexivity | now rewrite IH]. Qed.

Lemma append_empty_r (a : string) : a ++ "" = a.
Proof. induction a as [|x a IH]; simpl; [reflexivity | now rewrite IH]. Qed.

Lemma length_append (a b : string) :
  String.length (a ++ b) = String.length a + String.length b.
Proof. induction a as [|x a IH]; simpl; [reflexivity | now rewrite IH]. Qed.

Lemma append_inv_head (a b c : string) : a ++ b = a ++ c -> b = c.
Proof.
  induction a as [|x a IH]; simpl; intros H; [exact H |].
  injection H as H. auto.
Qed.

Lemma HasPrefix_append (p t : string) : strings.HasPrefix (p ++ t) p = true.
Proof.
  induction p as [|x p IH]; simpl; [reflexivity |].
  now rewrite Ascii.eqb_refl, IH.
Qed.

Lemma HasPrefix_inv (s p : string) :
  strings.HasPrefix s p = true -> exists t, s = p ++ t.
Proof.
  revert s. induction p as [|x p IH]; intros s H.
  - exists s. reflexivity.
  - destruct s as [|c s]; simpl in H; [discriminate |].
    apply andb_true_iff in H. destruct H as [Hc Hp].
    apply Ascii.eqb_eq in Hc. subst c.
    destruct (IH _ Hp) as [t ->]. exists t. reflexivity.
Qed.

Lemma HasPrefix_iff (s p : string) :
  strings.HasPrefix s p = true <-> exists t, s = p ++ t.
Proof.
  split; [apply HasPrefix_inv |].
  intros [t ->]. apply HasPrefix_append.
Qed.

Lemma take_drop (n : nat) (s : string) :
  strings.take n s ++ strings.drop n s = s.
Proof.
  revert s. induction n as [|n IH]; intros s; [reflexivity |].
  destruct s as [|c s]; simpl; [reflexivity | now rewrite IH].
Qed.

Lemma take_append (a b : string) : strings.take (String.length a) (a ++ b) = a.
Proof. induction a as [|x a IH]; simpl; [reflexivity | now rewrite IH]. Qed.

Lemma drop_append (a b : string) : strings.drop (String.length a) (a ++ b) = b.
Proof. induction a as [|x a IH]; simpl; [reflexivity | exact IH]. Qed.

(** [strings.Index] finds an occurrence, and no occurrence begins before
    it. *)
Lemma Index_Some (s sep : string) (i : nat) :
  strings.Index s sep = Some i ->
  s = strings.take i s ++ sep ++ strings.drop (i + String.length sep) s
  /\ String.length (strings.take i s) = i
  /\ forall pre post, s = pre ++ sep ++ post -> i <= String.length pre.
Proof.
  revert i. induction s as [|c s IH]; intros i H.
  - simpl in H. destruct (strings.HasPrefix "" sep) eqn:Hp; [|discriminate].
    injection H as <-. apply HasPrefix_inv in Hp. destruct Hp as [t Ht].
    simpl. repeat split; try lia.
    destruct sep; [reflexivity | discriminate].
  - cbn [strings.Index] in H.
    destruct (strings.HasPrefix (String c s) sep) eqn:Hp.
    + injection H as <-. apply HasPrefix_inv in Hp. destruct Hp as [t Ht].
      repeat split; try (simpl; lia).
      cbn [strings.take Nat.add]. rewrite Ht at 2.
      rewrite drop_append. simpl. exact Ht.
    + destruct (strings.Index s sep) as [j|] eqn:Hj; [|discriminate].
      injection H as <-. destruct (IH j eq_refl) as (E & L & M).
      repeat split.
      * cbn [strings.take strings.drop Nat.add]. simpl. f_equal. exact E.
      * simpl. now rewrite L.
      * intros pre post Hs. destruct pre as [|x pre].
        -- simpl in Hs. rewrite Hs, HasPrefix_append in Hp. discriminate.
        -- simpl in Hs. injection Hs as _ Hs. apply M in Hs. simpl. lia.
Qed.

Lemma Index_None (s sep : string) :
  strings.Index s sep = None -> absent s sep.
Proof.
  induction s as [|c s IH]; intros H pre post Hs.
  - simpl in H. destruct (strings.HasPrefix "" sep) eqn:Hp; [discriminate|].
    destruct pre; [|discriminate]. simpl in Hs.
    rewrite Hs, HasPrefix_append in Hp. discriminate.
  - cbn [strings.Index] in H.
    destruct (strings.HasPrefix (String c s) sep) eqn:Hp; [discriminate|].
    destruct (strings.Index s sep) eqn:Hj; [discriminate|].
    destruct pre as [|x pre].
    + simpl in Hs. rewrite Hs, HasPrefix_append in Hp. discriminate.
    + simpl in Hs. injection Hs as _ Hs. exact (IH eq_refl _ _ Hs).
Qed.

(** [strings.Cut] splits at the first occurrence of the separator. *)
Lemma Cut_found (s sep base rest : string) :
  strings.Cut s sep = (base, rest, true) -> first_occurrence s sep base rest.
Proof.
  unfold strings.Cut. destruct (strings.Index s sep) as [i|] eqn:Hi;
    [|discriminate].
  intros H. injection H as <- <-.
  destruct (Index_Some _ _ _ Hi) as (E & L & M).
  split; [exact E |]. intros pre post Hs. rewrite L. eapply M; eauto.
Qed.

Lemma Cut_not_found (s sep base rest : string) :
  strings.Cut s sep = (base, rest, false) ->
  absent s sep /\ base = s /\ rest = "".
Proof.
  unfold strings.Cut. destruct (strings.Index s sep) as [i|] eqn:Hi;
    [discriminate|].
  intros H. injection H as <- <-. split; [|split; reflexivity].
  now apply Index_None.
Qed.

(** The first occurrence is unique. *)
Lemma first_occurrence_unique (s sep b1 r1 b2 r2 : string) :
  first_occurrence s sep b1 r1 -> first_occurrence s sep b2 r2 ->
  b1 = b2 /\ r1 = r2.
Proof.
  intros [E1 M1] [E2 M2].
  assert (L : String.length b1 = String.length b2).
  { apply Nat.le_antisymm; [eapply M1 | eapply M2]; eassumption. }
  assert (B : b1 = b2).
  { rewrite <- (take_append b1 (sep ++ r1)), <- E1, L, E2.
    apply take_append. }
  subst b2. split; [reflexivity |].
  rewrite E1 in E2. apply append_inv_head in E2.
  now apply append_inv_head in E2.
Qed.

(** ** The matcher *)

Lemma span_append (p : ascii -> bool) (s : string) :
  fst (strings.span p s) ++ snd (strings.span p s) = s.
Proof.
  induction s as [|c s IH]; [reflexivity |].
  simpl. destruct (p c); [|reflexivity].
  destruct (strings.span p s) as [w rest]. simpl in *. now rewrite IH.
Qed.

Lemma span_all (p : ascii -> bool) (s : string) :
  strings.all_bytes p (fst (strings.span p s)) = true.
Proof.
  induction s as [|c s IH]; [reflexivity |].
  simpl. destruct (p c) eqn:Hc; [|reflexivity].
  destruct (strings.span p s) as [w rest]. simpl in *. now rewrite Hc, IH.
Qed.

(** The longest prefix, computed on a concatenation. *)
Lemma span_prefix (p : ascii -> bool) (w rest : string) :
  strings.all_bytes p w = true ->
  match rest with String c _ => p c = false | EmptyString => True end ->
  strings.span p (w ++ rest) = (w, rest).
Proof.
  intros Hw Hrest. induction w as [|x w IH].
  - simpl. destruct rest as [|c t]; [reflexivity |].
    simpl. now rewrite Hrest.
  - simpl in *. apply andb_true_iff in Hw. destruct Hw as [Hx Hw].
    rewrite Hx, (IH Hw). reflexivity.
Qed.

Section StarLoop.

Variable R : Type.
Variable p : ascii -> bool.
Variable step : nat -> string -> regexp.captures -> regexp.cont R -> option R.

Hypothesis step_byte :
  forall i s m k,
    step i s m k =
    match s with
    | String c t => if p c then k (S i) t m else None
    | EmptyString => None
    end.

(** A greedy loop over single bytes stops at the end of the longest
    run, when the continuation cannot succeed earlier than there or
    cannot fail at all. *)
Lemma star_loop_span (k : regexp.cont R) :
  (forall j c t m, p c = true -> k j (String c t) m = None)
  \/ (forall j t m, k j t m <> None) ->
  forall fuel s i m,
    String.length s <= fuel ->
    regexp.star_loop step k fuel i s m =
    k (i + String.length (fst (strings.span p s))) (snd (strings.span p s)) m.
Proof.
  intros Hk. induction fuel as [|fuel IH]; intros s i m Hlen.
  - destruct s; [|simpl in Hlen; lia]. simpl. now rewrite Nat.add_0_r.
  - cbn [regexp.star_loop]. rewrite step_byte. destruct s as [|c t].
    + simpl. now rewrite Nat.add_0_r.
    + cbn [strings.span]. destruct (p c) eqn:Hc.
      * assert (Hlt : Nat.ltb i (S i) = true) by (apply Nat.ltb_lt; lia).
        rewrite Hlt, IH by (simpl in Hlen; lia).
        destruct (strings.span p t) as [w rest]. cbn [fst snd String.length].
        replace (i + S (String.length w)) with (S i + String.length w) by lia.
        destruct (k (S i + String.length w) rest m) eqn:Hres; [reflexivity |].
        destruct Hk as [Hk|Hk]; [now apply Hk | now apply Hk in Hres].
      * simpl. now rewrite Nat.add_0_r.
Qed.

End StarLoop.

Lemma run_Any_step (R : Type) (i : nat) (s : string) (m : regexp.captures)
  (k : regexp.cont R) :
  regexp.run regexp.AnyNotNL i s m k =
  match s with
  | String c t => if not_newline c then k (S i) t m else None
  | EmptyString => None
  end.
Proof.
  destruct s as [|c t]; [reflexivity |].
  unfold not_newline. simpl. now destruct (Ascii.eqb c regexp.newline).
Qed.

Section ByteLoops.

Variable R : Type.
Variable p : ascii -> bool.
Variable r : regexp.Regexp.

Hypothesis run_byte :
  forall i s m (k : regexp.cont R),
    regexp.run r i s m k =
    match s with
    | String c t => if p c then k (S i) t m else None
    | EmptyString => None
    end.

Variable k : regexp.cont R.

Hypothesis k_stops :
  (forall j c t m, p c = true -> k j (String c t) m = None)
  \/ (forall j t m, k j t m <> None).

Lemma run_Star_span (i : nat) (s : string) (m : regexp.captures) :
  regexp.run (regexp.Star r) i s m k =
  k (i + String.length (fst (strings.span p s))) (snd (strings.span p s)) m.
Proof.
  cbn [regexp.run].
  apply (star_loop_span R p (regexp.run r) run_byte k k_stops). lia.
Qed.

Lemma run_Plus_span (i : nat) (s : string) (m : regexp.captures) :
  regexp.run (regexp.Plus r) i s m k =
  match strings.span p s with
  | (String _ _ as w, rest) => k (i + String.length w) rest m
  | (EmptyString, _) => None
  end.
Proof.
  unfold regexp.Plus.
  change (regexp.run (regexp.Seq r (regexp.Star r)) i s m k)
    with (regexp.run r i s m
            (fun i' s' m' => regexp.run (regexp.Star r) i' s' m' k)).
  rewrite run_byte.
  destruct s as [|c t]; [reflexivity |].
  cbn [strings.span]. destruct (p c); [|reflexivity].
  rewrite run_Star_span.
  destruct (strings.span p t) as [w rest]. cbn [fst snd String.length].
  f_equal. lia.
Qed.

End ByteLoops.

Lemma run_Seq (R : Type) (a b : regexp.Regexp) (i : nat) (s : string)
  (m : regexp.captures) (k : regexp.cont R) :
  regexp.run (regexp.Seq a b) i s m k =
  regexp.run a i s m (fun i' s' m' => regexp.run b i' s' m' k).
Proof. reflexivity. Qed.

Lemma run_Group (R : Type) (n : nat) (a : regexp.Regexp) (i : nat)
  (s : string) (m : regexp.captures) (k : regexp.cont R) :
  regexp.run (regexp.Group n a) i s m k =
  regexp.run a i s m
    (fun i' s' m' => k i' s' ((n, strings.take (i' - i) s) :: m')).
Proof. reflexivity. Qed.

Lemma run_Alt (R : Type) (a b : regexp.Regexp) (i : nat) (s : string)
  (m : regexp.captures) (k : regexp.cont R) :
  regexp.run (regexp.Alt a b) i s m k =
  match regexp.run a i s m k with
  | Some x => Some x
  | None => regexp.run b i s m k
  end.
Proof. reflexivity. Qed.

Lemma run_Class_cons (R : Type) (cs : regexp.class) (i : nat) (c : ascii)
  (t : string) (m : regexp.captures) (k : regexp.cont R) :
  regexp.run (regexp.Class cs) i (String c t) m k =
  if regexp.in_class cs c then k (S i) t m else None.
Proof. reflexivity. Qed.

Lemma run_Lit_cons (R : Type) (a : ascii) (i : nat) (c : ascii)
  (t : string) (m : regexp.captures) (k : regexp.cont R) :
  regexp.run (regexp.Lit a) i (String c t) m k =
  if Ascii.eqb c a then k (S i) t m else None.
Proof. reflexivity. Qed.

Lemma run_Bol_0 (R : Type) (s : string) (m : regexp.captures)
  (k : regexp.cont R) :
  regexp.run regexp.Bol 0 s m k = k 0 s m.
Proof. reflexivity. Qed.

Lemma word_not_slash (c : ascii) :
  regexp.in_class word c = true -> Ascii.eqb c "/" = false.
Proof.
  intros H. destruct (Ascii.eqb_spec c "/") as [->|]; [|reflexivity].
  discriminate.
Qed.

Lemma word_not_mark (c : ascii) :
  regexp.in_class word c = true -> regexp.in_class query_mark c = false.
Proof.
  intros H. destruct (regexp.in_class query_mark c) eqn:Hq; [|reflexivity].
  unfold regexp.in_class, query_mark in Hq. simpl in Hq.
  unfold regexp.in_range in Hq. simpl in Hq.
  rewrite orb_false_r in Hq. apply orb_true_iff in Hq.
  destruct Hq as [Hq|Hq]; apply andb_true_iff in Hq; destruct Hq as [H1 H2];
    pose proof (leb_antisym _ _ H1 H2) as <-; discriminate.
Qed.

Lemma in_query_mark (c : ascii) :
  regexp.in_class query_mark c = true <-> (c = "?" \/ c = "#")%char.
Proof.
  split.
  - intros Hq. unfold regexp.in_class, query_mark in Hq. simpl in Hq.
    unfold regexp.in_range in Hq. simpl in Hq.
    rewrite orb_false_r in Hq. apply orb_true_iff in Hq.
    destruct Hq as [Hq|Hq]; apply andb_true_iff in Hq; destruct Hq as [H1 H2];
      pose proof (leb_antisym _ _ H1 H2) as <-; auto.
  - intros [->| ->]; reflexivity.
Qed.

(** The match of [gitHubOrgRe] at the beginning of the text, against the
    scan. *)
Lemma run_gitHubOrgRe (R : Type) (kf : regexp.cont R) (s : string) :
  (forall j t m, kf j t m <> None) ->
  regexp.run gitHubOrgRe 0 s [] kf =
  match org_repo_split s with
  | Some (org, repo, mark, q, tail) =>
      kf (String.length (org ++ "/" ++ repo ++ String mark q)) tail
         [(2, String mark q); (1, org ++ "/" ++ repo)]
  | None => None
  end.
Proof.
  intros Hkf. unfold gitHubOrgRe, org_repo_split.
  rewrite run_Seq, run_Bol_0, run_Seq, run_Group, run_Seq.
  rewrite (run_Plus_span R (regexp.in_class word)); [|reflexivity|].
  2:{ left. intros j c t m Hc. rewrite run_Seq, run_Lit_cons.
      now rewrite (word_not_slash c Hc). }
  pose proof (span_append (regexp.in_class word) s) as Es.
  destruct (strings.span (regexp.in_class word) s) as [org r1].
  cbn [fst snd] in Es.
  destruct org as [|o org]; [reflexivity |].
  rewrite run_Seq.
  destruct r1 as [|slash r2]; [reflexivity |].
  rewrite run_Lit_cons.
  destruct (Ascii.eqb_spec slash "/") as [->|]; [|reflexivity].
  rewrite (run_Plus_span R (regexp.in_class word)); [|reflexivity|].
  2:{ left. intros j c t m Hc. rewrite run_Group, run_Seq, run_Class_cons.
      fold query_mark. now rewrite (word_not_mark c Hc). }
  pose proof (span_append (regexp.in_class word) r2) as Er.
  destruct (strings.span (regexp.in_class word) r2) as [repo r3].
  cbn [fst snd] in Er.
  destruct repo as [|r repo]; [reflexivity |].
  destruct r3 as [|mark r4]; [reflexivity |].
  rewrite run_Group, run_Seq, run_Class_cons. fold query_mark.
  destruct (regexp.in_class query_mark mark); [|reflexivity].
  rewrite (run_Star_span R not_newline); [|apply run_Any_step|].
  2:{ right. intros j t m. apply Hkf. }
  pose proof (span_append not_newline r4) as Eq.
  destruct (strings.span not_newline r4) as [q tail].
  cbn [fst snd] in Eq.
  set (org' := String o org) in *. set (repo' := String r repo) in *.
  assert (L : S (S (0 + String.length org') + String.length repo')
                + String.length q
              = String.length (org' ++ "/" ++ repo' ++ String mark q)).
  { rewrite length_append.
    change ("/" ++ repo' ++ String mark q) with (String "/" (repo' ++ String mark q)).
    cbn [String.length]. rewrite length_append. cbn [String.length]. lia. }
  cbn [fst snd]. rewrite L. f_equal. f_equal.
  - f_equal.
    replace (String.length (org' ++ "/" ++ repo' ++ String mark q)
             - (S (0 + String.length org') + String.length repo'))
      with (S (String.length q))
      by (rewrite <- L; lia).
    cbn [strings.take]. f_equal. rewrite <- Eq. apply take_append.
  - f_equal. f_equal.
    replace (S (0 + String.length org') + String.length repo' - 0)
      with (String.length (org' ++ "/" ++ repo'))
      by (rewrite length_append; simpl; lia).
    rewrite <- Es, <- Er. 
    replace (org' ++ String "/" (repo' ++ String mark r4))
      with ((org' ++ "/" ++ repo') ++ String mark r4)
      by (rewrite append_assoc; reflexivity).
    apply take_append.
Qed.

(** A pattern that begins with [^] matches at offset 0 only. *)
Lemma find_from_Bol (r : regexp.Regexp) (s : string) :
  forall i, 0 < i -> regexp.find_from (regexp.Seq regexp.Bol r) i s = None.
Proof.
  induction s as [|c s IH]; intros i Hi.
  - unfold regexp.find_from, regexp.match_at. cbn [regexp.run].
    destruct i; [lia | reflexivity].
  - cbn [regexp.find_from]. unfold regexp.match_at at 1. cbn [regexp.run].
    destruct i; [lia |]. cbn [Nat.eqb]. apply IH. lia.
Qed.

Lemma find_from_Bol_0 (r : regexp.Regexp) (s : string) :
  regexp.find_from (regexp.Seq regexp.Bol r) 0 s =
  regexp.match_at (regexp.Seq regexp.Bol r) 0 s.
Proof.
  destruct s as [|c s]; cbn [regexp.find_from].
  - now destruct (regexp.match_at _ 0 "").
  - destruct (regexp.match_at _ 0 (String c s)); [reflexivity |].
    apply find_from_Bol. lia.
Qed.

Lemma find_from_gitHubOrgRe (s : string) :
  regexp.find_from gitHubOrgRe 0 s =
  match org_repo_split s with
  | Some (org, repo, mark, q, tail) =>
      Some (regexp.mkMatch 0
              (String.length (org ++ "/" ++ repo ++ String mark q))
              [(2, String mark q); (1, org ++ "/" ++ repo)])
  | None => None
  end.
Proof.
  unfold gitHubOrgRe at 1. rewrite find_from_Bol_0. fold gitHubOrgRe.
  unfold regexp.match_at. rewrite run_gitHubOrgRe by discriminate.
  destruct (org_repo_split s) as [[[[[org repo] mark] q] tail]|]; reflexivity.
Qed.

(** What the scan returns, and when it succeeds. *)
Lemma org_repo_split_Some (s org repo : string) (mark : ascii)
  (q tail : string) :
  org_repo_split s = Some (org, repo, mark, q, tail) ->
  s = org ++ "/" ++ repo ++ String mark (q ++ tail)
  /\ is_segment org /\ is_segment repo /\ (mark = "?" \/ mark = "#")%char.
Proof.
  unfold org_repo_split.
  pose proof (span_append (regexp.in_class word) s) as Es.
  pose proof (span_all (regexp.in_class word) s) as As.
  destruct (strings.span (regexp.in_class word) s) as [org' r1].
  cbn [fst snd] in *.
  destruct org' as [|o org']; [discriminate |].
  destruct r1 as [|slash r2]; [discriminate |].
  destruct (Ascii.eqb_spec slash "/") as [->|]; [|discriminate].
  pose proof (span_append (regexp.in_class word) r2) as Er.
  pose proof (span_all (regexp.in_class word) r2) as Ar.
  destruct (strings.span (regexp.in_class word) r2) as [repo' r3].
  cbn [fst snd] in *.
  destruct repo' as [|r repo']; [discriminate |].
  destruct r3 as [|mark' r4]; [discriminate |].
  destruct (regexp.in_class query_mark mark') eqn:Hm; [|discriminate].
  pose proof (span_append not_newline r4) as Eq.
  destruct (strings.span not_newline r4) as [q' tail'].
  cbn [fst snd] in *.
  intros H. injection H as <- <- <- <- <-.
  split; [|split; [|split]].
  - rewrite <- Es, <- Er, <- Eq. reflexivity.
  - split; [discriminate | exact As].
  - split; [discriminate | exact Ar].
  - now apply in_query_mark.
Qed.

Lemma org_repo_split_query (org repo : string) (mark : ascii) (rest : string) :
  is_segment org -> is_segment repo -> (mark = "?" \/ mark = "#")%char ->
  exists q tail,
    rest = q ++ tail
    /\ org_repo_split (org ++ "/" ++ repo ++ String mark rest)
       = Some (org, repo, mark, q, tail).
Proof.
  intros [Ho Ao] [Hr Ar] Hm.
  exists (fst (strings.span not_newline rest)),
         (snd (strings.span not_newline rest)).
  split; [symmetry; apply span_append |].
  unfold org_repo_split.
  rewrite (span_prefix _ org _ Ao) by reflexivity.
  destruct org as [|o org]; [congruence |].
  change ("/" ++ repo ++ String mark rest)
    with (String "/" (repo ++ String mark rest)).
  cbn [Ascii.eqb Bool.eqb].
  rewrite (span_prefix _ repo _ Ar) by (destruct Hm as [->| ->]; reflexivity).
  destruct repo as [|r repo]; [congruence |].
  rewrite (proj2 (in_query_mark mark) Hm).
  destruct (strings.span not_newline rest) as [q tail]. reflexivity.
Qed.

Lemma org_repo_query_iff (s : string) :
  org_repo_query s <-> org_repo_split s <> None.
Proof.
  split.
  - intros (org & repo & mark & rest & -> & Ho & Hr & Hm).
    destruct (org_repo_split_query org repo mark rest Ho Hr Hm)
      as (q & tail & _ & ->).
    discriminate.
  - destruct (org_repo_split s) as [[[[[org repo] mark] q] tail]|] eqn:E;
      [|congruence].
    intros _. apply org_repo_split_Some in E.
    destruct E as (E & Ho & Hr & Hm).
    exists org, repo, mark, (q ++ tail). auto.
Qed.

(** One round of the replacement loop. *)
Lemma replaceAll_step (fuel : nat) (re : regexp.Regexp) (src repl : string)
  (lastMatchEnd searchPos : nat) (buf : string) :
  regexp.replaceAll (S fuel) re src repl lastMatchEnd searchPos buf =
  if Nat.leb searchPos (String.length src) then
    match regexp.find_from re searchPos (strings.drop searchPos src) with
    | None => buf ++ strings.drop lastMatchEnd src
    | Some a =>
        let buf :=
          buf ++ strings.take (regexp.m_begin a - lastMatchEnd)
                   (strings.drop lastMatchEnd src) in
        let buf :=
          if Nat.ltb lastMatchEnd (regexp.m_end a)
             || Nat.eqb (regexp.m_begin a) 0
          then buf ++ regexp.expand repl src a
          else buf in
        let width := if Nat.ltb searchPos (String.length src) then 1 else 0 in
        let searchPos' :=
          if Nat.ltb (regexp.m_end a) (searchPos + width)
          then searchPos + width
          else if Nat.ltb (regexp.m_end a) (searchPos + 1) then searchPos + 1
          else regexp.m_end a in
        regexp.replaceAll fuel re src repl (regexp.m_end a) searchPos' buf
    end
  else buf ++ strings.drop lastMatchEnd src.
Proof. reflexivity. Qed.

(** Replacement with a pattern that begins with [^]: the one match at
    the beginning of the text is replaced, the rest is kept. *)
Lemma ReplaceAllString_anchored (r : regexp.Regexp) (src repl : string)
  (mt : regexp.Match) :
  regexp.find_from (regexp.Seq regexp.Bol r) 0 src = Some mt ->
  regexp.m_begin mt = 0 -> 0 < regexp.m_end mt ->
  regexp.ReplaceAllString (regexp.Seq regexp.Bol r) src repl =
  regexp.expand repl src mt ++ strings.drop (regexp.m_end mt) src.
Proof.
  intros Hfind Hb He. unfold regexp.ReplaceAllString.
  replace (String.length src + 2) with (S (S (String.length src))) by lia.
  rewrite replaceAll_step. cbn [Nat.leb strings.drop]. rewrite Hfind.
  cbv zeta. rewrite Hb. cbn [Nat.sub strings.take append Nat.eqb].
  rewrite orb_true_r.
  set (width := if Nat.ltb 0 (String.length src) then 1 else 0).
  assert (Hw : width <= 1) by (unfold width; destruct (Nat.ltb _ _); lia).
  assert (H1 : Nat.ltb (regexp.m_end mt) (0 + width) = false)
    by (apply Nat.ltb_ge; lia).
  assert (H2 : Nat.ltb (regexp.m_end mt) (0 + 1) = false)
    by (apply Nat.ltb_ge; lia).
  rewrite H1, H2, replaceAll_step.
  destruct (Nat.leb (regexp.m_end mt) (String.length src)); [|reflexivity].
  now rewrite find_from_Bol.
Qed.

Lemma expand_gitHub_template (src : string) (mt : regexp.Match) :
  regexp.expand "git+https://github.com/$1$2" src mt =
  "git+https://github.com/"
    ++ regexp.group_text src mt 1 ++ regexp.group_text src mt 2.
Proof.
  unfold regexp.expand.
  change (regexp.template_pieces regexp.InText "git+https://github.com/$1$2")
    with (map (fun c => regexp.Text (String c ""))
              (list_ascii_of_string "git+https://github.com/")
            ++ [regexp.Ref 1; regexp.Ref 2])%list.
  cbn [list_ascii_of_string map app regexp.expand_pieces append].
  now rewrite append_empty_r.
Qed.

(** [GitHubOrgRepo] against the scan. *)
Lemma GitHubOrgRepo_split (s : string) :
  GitHubOrgRepo s =
  match org_repo_split s with
  | Some _ => ("git+https://github.com/" ++ s, true)
  | None => ("", false)
  end.
Proof.
  unfold GitHubOrgRepo, regexp.MatchString.
  rewrite find_from_gitHubOrgRe.
  destruct (org_repo_split s) as [[[[[org repo] mark] q] tail]|] eqn:E;
    [|reflexivity].
  f_equal.
  destruct (org_repo_split_Some _ _ _ _ _ _ E) as (Es & [Ho _] & _).
  pose proof (find_from_gitHubOrgRe s) as Hfind. rewrite E in Hfind.
  unfold gitHubOrgRe at 1.
  unfold gitHubOrgRe at 1 in Hfind.
  rewrite (ReplaceAllString_anchored _ _ _ _ Hfind); [|reflexivity|].
  2:{ cbn [regexp.m_end]. destruct org; [congruence | simpl; lia]. }
  rewrite expand_gitHub_template.
  cbn [regexp.group_text regexp.submatch regexp.m_groups regexp.m_end Nat.eqb].
  assert (Es' : s = (org ++ "/" ++ repo ++ String mark q) ++ tail).
  { rewrite Es, !append_assoc. reflexivity. }
  rewrite Es' at 1. rewrite drop_append. rewrite Es.
  rewrite !append_assoc. reflexivity.
Qed.

(** A literal string matches exactly when it is a prefix of the input. *)
Lemma run_Lits (R : Type) (l : string) :
  forall (i : nat) (s : string) (m : regexp.captures) (k : regexp.cont R),
    regexp.run (regexp.Lits l) i s m k =
    if strings.HasPrefix s l
    then k (i + String.length l) (strings.drop (String.length l) s) m
    else None.
Proof.
  induction l as [|a l IH]; intros i s m k.
  - cbn. now rewrite Nat.add_0_r.
  - destruct l as [|b l].
    + cbn [regexp.Lits]. destruct s as [|c t]; [reflexivity |].
      rewrite run_Lit_cons. cbn [strings.HasPrefix String.length strings.drop].
      rewrite andb_true_r. now replace (i + 1) with (S i) by lia.
    + change (regexp.Lits (String a (String b l)))
        with (regexp.Seq (regexp.Lit a) (regexp.Lits (String b l))).
      rewrite run_Seq. destruct s as [|c t]; [reflexivity |].
      rewrite run_Lit_cons.
      change (strings.HasPrefix (String c t) (String a (String b l)))
        with (Ascii.eqb c a && strings.HasPrefix t (String b l)).
      destruct (Ascii.eqb c a); [|reflexivity].
      rewrite IH. cbn [andb].
      destruct (strings.HasPrefix t (String b l)); [|reflexivity].
      cbn [String.length strings.drop]. f_equal. lia.
Qed.

(** [tarRe] matches at an offset exactly when the input there begins
    with one of its literals. *)
Lemma run_tarRe (R : Type) (k : regexp.cont R) (i : nat) (s : string)
  (m : regexp.captures) :
  (forall j t m', k j t m' <> None) ->
  is_some (regexp.run tarRe i s m k) = has_tar_literal s.
Proof.
  intros Hk. unfold tarRe, has_tar_literal, tar_literals, short_tar_exts.
  cbn [existsb].
  rewrite run_Alt, run_Group, run_Seq, run_Lits.
  destruct (strings.HasPrefix s ".tar").
  - unfold regexp.Opt. rewrite run_Alt.
    match goal with |- context [regexp.run (regexp.Group 2 ?a) ?i ?s ?m ?k] =>
      destruct (regexp.run (regexp.Group 2 a) i s m k) end;
      [reflexivity |].
    cbn [regexp.run].
    match goal with |- context [k ?a ?b ?c] =>
      destruct (k a b c) eqn:E; [reflexivity | now apply Hk in E] end.
  - rewrite run_Group.
    repeat (rewrite run_Alt, run_Lits;
            match goal with |- context [strings.HasPrefix s ?l] =>
              destruct (strings.HasPrefix s l) end;
            [match goal with |- context [k ?a ?b ?c] =>
               destruct (k a b c) eqn:E; [reflexivity | now apply Hk in E] end
            | cbn [orb] ]).
    rewrite run_Lits.
    destruct (strings.HasPrefix s ".tgz"); [|reflexivity].
    match goal with |- context [k ?a ?b ?c] =>
      destruct (k a b c) eqn:E; [reflexivity | now apply Hk in E] end.
Qed.

Lemma match_at_tarRe (i : nat) (s : string) :
  is_some (regexp.match_at tarRe i s) = has_tar_literal s.
Proof. unfold regexp.match_at. apply run_tarRe. discriminate. Qed.

(** The search succeeds exactly when the pattern matches at some
    offset. *)
Lemma find_from_some (r : regexp.Regexp) (s : string) :
  forall i,
    is_some (regexp.find_from r i s) = true <->
    exists j, j <= String.length s
              /\ is_some (regexp.match_at r (i + j) (strings.drop j s)) = true.
Proof.
  induction s as [|c s IH]; intros i.
  - cbn [regexp.find_from]. split.
    + intros H. exists 0. rewrite Nat.add_0_r. split; [simpl; lia |].
      cbn [strings.drop]. now destruct (regexp.match_at r i "").
    + intros (j & Hj & H). simpl in Hj.
      assert (j = 0) as -> by lia. rewrite Nat.add_0_r in H.
      cbn [strings.drop] in H. now destruct (regexp.match_at r i "").
  - cbn [regexp.find_from].
    destruct (regexp.match_at r i (String c s)) eqn:E.
    + split; [|reflexivity]. intros _. exists 0.
      rewrite Nat.add_0_r. cbn [strings.drop]. rewrite E.
      split; [lia | reflexivity].
    + rewrite IH. split.
      * intros (j & Hj & H). exists (S j). split; [simpl; lia |].
        replace (i + S j) with (S i + j) by lia. exact H.
      * intros (j & Hj & H). destruct j as [|j].
        -- rewrite Nat.add_0_r in H. cbn [strings.drop] in H.
           rewrite E in H. discriminate.
        -- exists j. split; [simpl in Hj; lia |].
           replace (S i + j) with (i + S j) by lia. exact H.
Qed.

Lemma occurs_in_drop (l s : string) :
  occurs_in l s <->
  exists j, j <= String.length s
            /\ strings.HasPrefix (strings.drop j s) l = true.
Proof.
  split.
  - intros (pre & post & ->). exists (String.length pre). split.
    + rewrite length_append. lia.
    + rewrite drop_append. apply HasPrefix_append.
  - intros (j & Hj & H). apply HasPrefix_inv in H. destruct H as [t Ht].
    exists (strings.take j s), t. rewrite <- Ht. symmetry. apply take_drop.
Qed.

(** [TAR.Match] on a path, against the literals. *)
Lemma MatchString_tarRe (path : string) :
  regexp.MatchString tarRe path = true <->
  exists l, In l tar_literals /\ occurs_in l path.
Proof.
  unfold regexp.MatchString.
  change (match regexp.find_from tarRe 0 path with
          | Some _ => true
          | None => false
          end) with (is_some (regexp.find_from tarRe 0 path)).
  rewrite find_from_some. split.
  - intros (j & Hj & H). rewrite match_at_tarRe in H.
    unfold has_tar_literal in H. apply existsb_exists in H.
    destruct H as (l & Hl & Hp). exists l. split; [exact Hl |].
    apply occurs_in_drop. exists j. auto.
  - intros (l & Hl & Ho). apply occurs_in_drop in Ho.
    destruct Ho as (j & Hj & Hp). exists j. split; [exact Hj |].
    rewrite match_at_tarRe. unfold has_tar_literal.
    apply existsb_exists. exists l. auto.
Qed.

(** A path holds a tar extension exactly when it holds one of the
    literals. *)
Lemma contains_tar_ext_literal (path : string) :
  contains_tar_ext path <-> exists l, In l tar_literals /\ occurs_in l path.
Proof.
  split.
  - intros (e & He & Ho). destruct He as [|w Hw|e He].
    + exists ".tar". split; [now left | exact Ho].
    + exists ".tar". split; [now left |].
      destruct Ho as (pre & post & ->).
      exists pre, ("." ++ w ++ post).
      reflexivity.
    + exists e. split; [now right | exact Ho].
  - intros (l & [<-|Hl] & Ho).
    + exists ".tar". split; [constructor | exact Ho].
    + exists l. split; [now apply tar_short | exact Ho].
Qed.

(** ** Executions *)

Section ResolveFacts.

Context {lib : NetLib}.

Lemma Resolve_mappers_cons (m : Mapper) (ms : list Mapper) (i : nat)
  (source : string) :
  Resolve_mappers (m :: ms) i source =
  if accepts source m then
    ([MapperCall i source; ParseCall (fst (m source))],
     match url_Parse (fst (m source)) with
     | Some _ => Returned (fst (m source))
     | None =>
         Panicked ("mapper did not produce a valid URL: " ++ fst (m source))
     end)
  else
    (MapperCall i source :: fst (Resolve_mappers ms (S i) source),
     snd (Resolve_mappers ms (S i) source)).
Proof.
  unfold accepts. cbn [Resolve_mappers bind call].
  destruct (m source) as [mapped ok]. cbn [fst snd].
  destruct ok.
  - cbn. destruct (url_Parse mapped); reflexivity.
  - destruct (Resolve_mappers ms (S i) source) as [log out].
    cbn. reflexivity.
Qed.

Lemma Resolve_resolvers_cons (r : Resolver) (rs : list Resolver) (i : nat)
  (u : url_URL) :
  Resolve_resolvers (r :: rs) i u =
  if Match r u then
    ([MatchCall i u], Returned (Some r, split_subdir u, None))
  else
    (MatchCall i u :: fst (Resolve_resolvers rs (S i) u),
     snd (Resolve_resolvers rs (S i) u)).
Proof.
  cbn [Resolve_resolvers bind call].
  destruct (Match r u); cbn.
  - reflexivity.
  - destruct (Resolve_resolvers rs (S i) u) as [log out]. reflexivity.
Qed.

(** The candidate, by cases on the mapper list. *)
Lemma candidate_cons (m : Mapper) (ms : list Mapper) (source : string) :
  candidate (m :: ms) source =
  if accepts source m then fst (m source) else candidate ms source.
Proof. unfold candidate. simpl. destruct (accepts source m); reflexivity. Qed.

Lemma candidate_first (pre post : list Mapper) (m : Mapper) (source : string) :
  (forall m', In m' pre -> accepts source m' = false) ->
  accepts source m = true ->
  candidate (pre ++ m :: post) source = fst (m source).
Proof.
  intros Hpre Hm. induction pre as [|p pre IH]; simpl.
  - rewrite candidate_cons, Hm. reflexivity.
  - rewrite candidate_cons, (Hpre p (or_introl eq_refl)).
    apply IH. intros m' Hin. apply Hpre. now right.
Qed.

Lemma candidate_none (ms : list Mapper) (source : string) :
  (forall m, In m ms -> accepts source m = false) ->
  candidate ms source = source.
Proof.
  intros H. induction ms as [|m ms IH]; [reflexivity |].
  rewrite candidate_cons, (H m (or_introl eq_refl)).
  apply IH. intros m' Hin. apply H. now right.
Qed.

(** What the mapper loop logs and how it ends. *)
Lemma Resolve_mappers_log (ms : list Mapper) :
  forall (i : nat) (source : string),
    let log := fst (Resolve_mappers ms i source) in
    let out := snd (Resolve_mappers ms i source) in
    let c := candidate ms source in
    (forall s, parsed log s -> s = c)
    /\ (forall j s, mapper_called log j s ->
          s = source /\ i <= j
          /\ forall k m, k < j - i -> nth_error ms k = Some m ->
                         accepts source m = false)
    /\ (forall k m, nth_error ms k = Some m ->
          (forall k' m', k' < k -> nth_error ms k' = Some m' ->
                         accepts source m' = false) ->
          mapper_called log (i + k) source)
    /\ (forall j u, ~ match_called log j u)
    /\ (out = Returned c
        \/ (exists msg, out = Panicked msg)
           /\ parsed log c /\ url_Parse c = None).
Proof.
  induction ms as [|m ms IH]; intros i source.
  - cbn. unfold parsed, mapper_called, match_called.
    split; [|split; [|split; [|split]]].
    + intros s [].
    + intros j s [].
    + intros k m H. destruct k; discriminate.
    + intros j u [].
    + now left.
  - cbv zeta. rewrite Resolve_mappers_cons, candidate_cons.
    destruct (accepts source m) eqn:Hm.
    + cbn [fst snd]. unfold parsed, mapper_called, match_called.
      split; [|split; [|split; [|split]]].
      * intros s [H|[H|[]]]; [discriminate | now injection H].
      * intros j s [H|[H|[]]]; [injection H as <- <- | discriminate].
        split; [reflexivity |]. split; [lia |]. intros k m' Hk. lia.
      * intros k m' Hn Hprev. destruct k as [|k].
        -- left. f_equal. lia.
        -- exfalso. specialize (Hprev 0 m (Nat.lt_0_succ _) eq_refl).
           congruence.
      * intros j u [H|[H|[]]]; discriminate.
      * destruct (url_Parse (fst (m source))) eqn:Hp.
        -- now left.
        -- right. split; [eexists; reflexivity |].
           split; [right; now left | reflexivity].
    + cbn [fst snd]. specialize (IH (S i) source). cbv zeta in IH.
      destruct IH as (P & C & A & N & O).
      unfold parsed, mapper_called, match_called in *.
      split; [|split; [|split; [|split]]].
      * intros s [H|H]; [discriminate | now apply P].
      * intros j s [H|H].
        -- injection H as <- <-.
           split; [reflexivity |]. split; [lia |]. intros k m' Hk. lia.
        -- apply C in H. destruct H as (Hs & Hle & Hall).
           split; [exact Hs |]. split; [lia |]. intros k m' Hk Hn.
           destruct k as [|k]; [simpl in Hn; congruence |].
           simpl in Hn. apply (Hall k m'); [lia | exact Hn].
      * intros k m' Hn Hprev. destruct k as [|k].
        -- left. f_equal. lia.
        -- right. replace (i + S k) with (S i + k) by lia.
           apply (A k m'); [exact Hn |].
           intros k' m'' Hk' Hn'. apply (Hprev (S k') m''); [lia | exact Hn'].
      * intros j u [H|H]; [discriminate | now apply N in H].
      * destruct O as [O|(O1 & O2 & O3)].
        -- now left.
        -- right. split; [exact O1 |]. split; [now right | exact O3].
Qed.

(** [find] returns the first element that satisfies the test. *)
Lemma find_first {A : Type} (p : A -> bool) (l : list A) (x : A) :
  find p l = Some x ->
  p x = true
  /\ exists k, nth_error l k = Some x
               /\ forall k' y, k' < k -> nth_error l k' = Some y -> p y = false.
Proof.
  induction l as [|a l IH]; [discriminate |].
  simpl. destruct (p a) eqn:Ha.
  - intros H. injection H as <-. split; [exact Ha |].
    exists 0. split; [reflexivity |]. intros k' y Hk. lia.
  - intros H. destruct (IH H) as (Hx & k & Hn & Hprev).
    split; [exact Hx |]. exists (S k). split; [exact Hn |].
    intros k' y Hk Hy. destruct k' as [|k'].
    + simpl in Hy. congruence.
    + apply (Hprev k' y); [lia | exact Hy].
Qed.

Lemma find_none_iff {A : Type} (p : A -> bool) (l : list A) :
  find p l = None <-> forall x, In x l -> p x = false.
Proof.
  split.
  - intros H x Hin. exact (find_none p l H x Hin).
  - intros H. induction l as [|a l IH]; [reflexivity |].
    simpl. rewrite (H a (or_introl eq_refl)).
    apply IH. intros x Hin. apply H. now right.
Qed.

(** What the resolver loop logs and what it returns. *)
Lemma Resolve_resolvers_log (rs : list Resolver) :
  forall (i : nat) (u : url_URL),
    let log := fst (Resolve_resolvers rs i u) in
    let out := snd (Resolve_resolvers rs i u) in
    (forall s, ~ parsed log s)
    /\ (forall j s, ~ mapper_called log j s)
    /\ (forall j v, match_called log j v ->
          v = u /\ i <= j
          /\ forall k r, k < j - i -> nth_error rs k = Some r ->
                         Match r u = false)
    /\ (forall k r, nth_error rs k = Some r ->
          (forall k' r', k' < k -> nth_error rs k' = Some r' ->
                         Match r' u = false) ->
          match_called log (i + k) u)
    /\ out = Returned
               match first_resolver rs u with
               | Some r => (Some r, split_subdir u, None)
               | None =>
                   (None, zeroSource,
                    Some ("unsupported source: " ++ URL_String u))
               end.
Proof.
  induction rs as [|r rs IH]; intros i u.
  - cbn. unfold parsed, mapper_called, match_called.
    split; [|split; [|split; [|split]]].
    + intros s [].
    + intros j s [].
    + intros j v [].
    + intros k r H. destruct k; discriminate.
    + reflexivity.
  - cbv zeta. rewrite Resolve_resolvers_cons. unfold first_resolver.
    cbn [find]. destruct (Match r u) eqn:Hm.
    + cbn [fst snd]. unfold parsed, mapper_called, match_called.
      split; [|split; [|split; [|split]]].
      * intros s [H|[]]. discriminate.
      * intros j s [H|[]]. discriminate.
      * intros j v [H|[]]. injection H as <- <-.
        split; [reflexivity |]. split; [lia |]. intros k r' Hk. lia.
      * intros k r' Hn Hprev. destruct k as [|k].
        -- left. f_equal. lia.
        -- exfalso. specialize (Hprev 0 r (Nat.lt_0_succ _) eq_refl).
           congruence.
      * reflexivity.
    + cbn [fst snd]. specialize (IH (S i) u). cbv zeta in IH.
      destruct IH as (P & C & M & A & O).
      unfold parsed, mapper_called, match_called in *.
      split; [|split; [|split; [|split]]].
      * intros s [H|H]; [discriminate | now apply P in H].
      * intros j s [H|H]; [discriminate | now apply C in H].
      * intros j v [H|H].
        -- injection H as <- <-.
           split; [reflexivity |]. split; [lia |]. intros k r' Hk. lia.
        -- apply M in H. destruct H as (Hv & Hle & Hall).
           split; [exact Hv |]. split; [lia |]. intros k r' Hk Hn.
           destruct k as [|k]; [simpl in Hn; congruence |].
           simpl in Hn. apply (Hall k r'); [lia | exact Hn].
      * intros k r' Hn Hprev. destruct k as [|k].
        -- left. f_equal. lia.
        -- right. replace (i + S k) with (S i + k) by lia.
           apply (A k r'); [exact Hn |].
           intros k' r'' Hk' Hn'. apply (Hprev (S k') r''); [lia | exact Hn'].
      * exact O.
Qed.

(** [Resolve], phase by phase. *)
Lemma Resolve_unfold (f : Fetcher) (source : string) :
  Resolve f source =
  match snd (Resolve_mappers (mappers f) 0 source) with
  | Panicked msg => (fst (Resolve_mappers (mappers f) 0 source), Panicked msg)
  | Returned c =>
      match url_Parse c with
      | None =>
          ((fst (Resolve_mappers (mappers f) 0 source) ++ [ParseCall c])%list,
           Returned (None, zeroSource,
                     Some ("invalid source " ++ strconv_Quote c)))
      | Some u =>
          ((fst (Resolve_mappers (mappers f) 0 source)
              ++ ParseCall c :: fst (Resolve_resolvers (resolvers f) 0 u))%list,
           snd (Resolve_resolvers (resolvers f) 0 u))
      end
  end.
Proof.
  unfold Resolve.
  destruct (Resolve_mappers (mappers f) 0 source) as [log1 [c|msg]];
    cbn [bind fst snd]; [|reflexivity].
  cbn [call bind]. destruct (url_Parse c) as [u|].
  - destruct (Resolve_resolvers (resolvers f) 0 u) as [log2 out2].
    cbn. reflexivity.
  - cbn. reflexivity.
Qed.

Lemma with_Path_same (u : url_URL) : with_Path u (Path u) = u.
Proof. destruct u; reflexivity. Qed.

(** The [Source] built from a URL, against the first occurrence of
    [//] in its path. *)
Lemma split_subdir_spec (u : url_URL) :
  exists u',
    URL (split_subdir u) = Some u'
    /\ u' = with_Path u (Path u')
    /\ (forall base rest,
          first_occurrence (Path u) "//" base rest ->
          Path u' = base /\ SubDir (split_subdir u) = rest)
    /\ (absent (Path u) "//" ->
        Path u' = Path u /\ u' = u /\ SubDir (split_subdir u) = "").
Proof.
  unfold split_subdir.
  destruct (strings.Cut (Path u) "//") as [[base sub] ok] eqn:Hcut.
  destruct ok.
  - apply Cut_found in Hcut. exists (with_Path u base). cbn [URL SubDir].
    split; [reflexivity |]. split; [reflexivity |]. split.
    + intros base' rest' H.
      destruct (first_occurrence_unique _ _ _ _ _ _ Hcut H) as [<- <-].
      split; reflexivity.
    + intros Habs. exfalso. destruct Hcut as [E _]. exact (Habs _ _ E).
  - apply Cut_not_found in Hcut. destruct Hcut as (Habs & -> & ->).
    exists u. cbn [URL SubDir].
    split; [reflexivity |]. split; [symmetry; apply with_Path_same |]. split.
    + intros base' rest' [E _]. exfalso. exact (Habs _ _ E).
    + intros _. repeat split.
Qed.

(** C1.  For every input string, every string [Resolve] hands to
    [url.Parse] is the candidate URL: the output, on the original input,
    of the first mapper in registration order that reports a match, or the
    input itself when no mapper does; and [Resolve] does parse it.  A
    mapper is consulted exactly when all mappers registered before it
    declined, always on the original input, so no mapper after the first
    match is consulted. *)
Theorem Resolve_parses_first_mapped (f : Fetcher) (source : string) :
  let log := fst (Resolve f source) in
  let c := candidate (mappers f) source in
  parsed log c
  /\ (forall s, parsed log s -> s = c)
  /\ (forall i s, mapper_called log i s ->
        s = source
        /\ forall j m, j < i -> nth_error (mappers f) j = Some m ->
                       accepts source m = false)
  /\ (forall i m, nth_error (mappers f) i = Some m ->
        (forall j m', j < i -> nth_error (mappers f) j = Some m' ->
                      accepts source m' = false) ->
        mapper_called log i source).
Proof.
  cbv zeta. rewrite Resolve_unfold.
  destruct (Resolve_mappers_log (mappers f) 0 source) as (P & C & A & N & O).
  destruct O as [O|((msg & O1) & O2 & O3)].
  - rewrite O. set (c := candidate (mappers f) source) in *.
    assert (Hlog : forall tail,
               (forall s, parsed tail s -> s = c) ->
               (forall j s, ~ mapper_called tail j s) ->
               let log :=
                 (fst (Resolve_mappers (mappers f) 0 source) ++ tail)%list in
               (forall s, parsed log s -> s = c)
               /\ (forall i s, mapper_called log i s ->
                     s = source
                     /\ forall j m, j < i -> nth_error (mappers f) j = Some m ->
                                    accepts source m = false)
               /\ (forall i m, nth_error (mappers f) i = Some m ->
                     (forall j m', j < i -> nth_error (mappers f) j = Some m' ->
                                   accepts source m' = false) ->
                     mapper_called log i source)).
    { intros tail Pt Ct. cbv zeta.
      unfold parsed, mapper_called in *. split; [|split].
      - intros s H. apply in_app_or in H. destruct H; auto.
      - intros i s H. apply in_app_or in H. destruct H as [H|H].
        + apply C in H. destruct H as (Hs & _ & Hall). split; [exact Hs |].
          intros j m Hj. apply Hall. lia.
        + exfalso. exact (Ct _ _ H).
      - intros i m Hn Hprev. apply in_or_app. left.
        exact (A i m Hn Hprev). }
    destruct (url_Parse c) as [u|] eqn:Hp; cbn [fst].
    + destruct (Resolve_resolvers_log (resolvers f) 0 u) as (P2 & C2 & _).
      split.
      * unfold parsed. apply in_or_app. right. now left.
      * apply Hlog.
        -- intros s [H|H]; [now injection H | exfalso; exact (P2 _ H)].
        -- intros j s [H|H]; [discriminate | exact (C2 _ _ H)].
    + split.
      * unfold parsed. apply in_or_app. right. now left.
      * apply Hlog.
        -- intros s [H|[]]. now injection H.
        -- intros j s [H|[]]. discriminate.
  - rewrite O1. cbn [fst]. split; [exact O2 |]. split; [exact P |]. split.
    + intros i s H. apply C in H. destruct H as (Hs & _ & Hall).
      split; [exact Hs |]. intros j m Hj. apply Hall. lia.
    + exact A.
Qed.

(** The outcome and the [Match] calls of [Resolve] when the candidate
    parses. *)
Lemma Resolve_when_parsed (f : Fetcher) (source : string)
  (u : url_URL) :
  url_Parse (candidate (mappers f) source) = Some u ->
  let log := fst (Resolve f source) in
  snd (Resolve f source) =
    Returned
      match first_resolver (resolvers f) u with
      | Some r => (Some r, split_subdir u, None)
      | None =>
          (None, zeroSource, Some ("unsupported source: " ++ URL_String u))
      end
  /\ (forall i v, match_called log i v ->
        v = u
        /\ forall j r, j < i -> nth_error (resolvers f) j = Some r ->
                       Match r u = false)
  /\ (forall i r, nth_error (resolvers f) i = Some r ->
        (forall j r', j < i -> nth_error (resolvers f) j = Some r' ->
                      Match r' u = false) ->
        match_called log i u).
Proof.
  intros Hp. cbv zeta. rewrite Resolve_unfold.
  destruct (Resolve_mappers_log (mappers f) 0 source) as (P & C & A & N & O).
  destruct O as [O|((msg & O1) & O2 & O3)]; [|congruence].
  rewrite O, Hp. cbn [fst snd].
  destruct (Resolve_resolvers_log (resolvers f) 0 u) as (_ & _ & M2 & A2 & O').
  split; [exact O' |]. unfold match_called in *. split.
  - intros i v H. apply in_app_or in H. destruct H as [H|[H|H]].
    + exfalso. exact (N _ _ H).
    + discriminate.
    + apply M2 in H. destruct H as (Hv & _ & Hall). split; [exact Hv |].
      intros j r Hj. apply Hall. lia.
  - intros i r Hn Hprev. apply in_or_app. right. right.
    exact (A2 i r Hn Hprev).
Qed.

(** C2.  For every candidate URL that parses, to [u], and every ordered
    resolver list, [Resolve] returns the first resolver in registration
    order whose [Match] is true for [u] (with the [Source] built from [u]
    and no error), whatever the resolvers registered after it answer: a
    resolver's [Match] is consulted exactly when all resolvers registered
    before it returned false. *)
Theorem Resolve_first_matching_resolver (f : Fetcher) (source : string)
  (u : url_URL) :
  url_Parse (candidate (mappers f) source) = Some u ->
  let log := fst (Resolve f source) in
  snd (Resolve f source) =
    Returned
      match first_resolver (resolvers f) u with
      | Some r => (Some r, split_subdir u, None)
      | None =>
          (None, zeroSource, Some ("unsupported source: " ++ URL_String u))
      end
  /\ (forall i v, match_called log i v ->
        v = u
        /\ forall j r, j < i -> nth_error (resolvers f) j = Some r ->
                       Match r u = false)
  /\ (forall i r, nth_error (resolvers f) i = Some r ->
        (forall j r', j < i -> nth_error (resolvers f) j = Some r' ->
                      Match r' u = false) ->
        match_called log i u).
Proof. exact (Resolve_when_parsed f source u). Qed.

(** C3.  For every successful [Resolve], the selected resolver's [Match]
    was evaluated, and found true, on the URL as parsed, with its full
    path; and the returned [Source] holds that URL with, when the path
    contains [//], the part before the first occurrence as its path and
    the part after it as [SubDir], and otherwise the path unchanged and
    an empty [SubDir]. *)
Theorem Resolve_splits_subdir (f : Fetcher) (source : string)
  (r : Resolver) (src : Source) :
  snd (Resolve f source) = Returned (Some r, src, None) ->
  let log := fst (Resolve f source) in
  exists u u',
    url_Parse (candidate (mappers f) source) = Some u
    /\ Match r u = true
    /\ (exists i, nth_error (resolvers f) i = Some r /\ match_called log i u)
    /\ (forall i v, match_called log i v -> v = u)
    /\ URL src = Some u'
    /\ u' = with_Path u (Path u')
    /\ (forall base rest,
          first_occurrence (Path u) "//" base rest ->
          Path u' = base /\ SubDir src = rest)
    /\ (absent (Path u) "//" ->
        Path u' = Path u /\ u' = u /\ SubDir src = "").
Proof.
  intros Hret. cbv zeta.
  destruct (url_Parse (candidate (mappers f) source)) as [u|] eqn:Hp.
  - destruct (Resolve_when_parsed f source u Hp) as (O & M & A).
    rewrite O in Hret.
    destruct (first_resolver (resolvers f) u) as [r'|] eqn:Hf;
      [|discriminate].
    injection Hret as <- <-.
    destruct (find_first _ _ _ Hf) as (Hm & k & Hn & Hprev).
    destruct (split_subdir_spec u) as (u' & H1 & H2 & H3 & H4).
    exists u, u'. split; [reflexivity |]. split; [exact Hm |].
    split; [exists k; split; [exact Hn | exact (A k r' Hn Hprev)] |].
    split; [intros i v H; exact (proj1 (M i v H)) |].
    split; [exact H1 |]. split; [exact H2 |]. split; [exact H3 | exact H4].
  - exfalso. rewrite Resolve_unfold in Hret.
    destruct (Resolve_mappers_log (mappers f) 0 source) as (_ & _ & _ & _ & O).
    destruct O as [O|((msg & O1) & _)].
    + rewrite O, Hp in Hret. discriminate.
    + rewrite O1 in Hret. discriminate.
Qed.

(** C8.  When the candidate URL parses, to [u], and no resolver's [Match]
    returns true for [u], [Resolve] returns no resolver, the zero [Source]
    and the error [unsupported source: ] followed by [u] as a string, so
    the message contains the URL; this message differs from every
    [invalid source] message, which is what [Resolve] returns when no
    mapper matched and the string does not parse. *)
Theorem Resolve_unsupported_source (f : Fetcher) (source : string)
  (u : url_URL) :
  url_Parse (candidate (mappers f) source) = Some u ->
  (forall r, In r (resolvers f) -> Match r u = false) ->
  snd (Resolve f source) =
    Returned (None, zeroSource, Some ("unsupported source: " ++ URL_String u))
  /\ occurs_in (URL_String u) ("unsupported source: " ++ URL_String u)
  /\ (forall s, "unsupported source: " ++ URL_String u
                <> "invalid source " ++ strconv_Quote s)
  /\ (forall f' s',
        (forall m, In m (mappers f') -> accepts s' m = false) ->
        url_Parse s' = None ->
        snd (Resolve f' s') =
          Returned (None, zeroSource,
                    Some ("invalid source " ++ strconv_Quote s'))).
Proof.
  intros Hp Hnone.
  destruct (Resolve_when_parsed f source u Hp) as (O & _).
  assert (Hf : first_resolver (resolvers f) u = None).
  { apply find_none_iff. exact Hnone. }
  rewrite Hf in O. split; [exact O |]. split.
  - exists "unsupported source: ", "". now rewrite append_empty_r.
  - split; [intros s H; discriminate |].
    intros f' s' Hm Hp'. rewrite Resolve_unfold.
    destruct (Resolve_mappers_log (mappers f') 0 s') as (_ & _ & _ & _ & O2).
    rewrite (candidate_none _ _ Hm) in O2.
    destruct O2 as [O2|((msg & O21) & O22 & O23)].
    + rewrite O2, Hp'. reflexivity.
    + exfalso. unfold parsed in O22.
      assert (Hno : forall ms i, (forall m, In m ms -> accepts s' m = false) ->
                 forall s, ~ In (ParseCall s) (fst (Resolve_mappers ms i s'))).
      { clear. intros ms. induction ms as [|m ms IH]; intros i Hm s.
        - simpl. tauto.
        - rewrite Resolve_mappers_cons, (Hm m (or_introl eq_refl)).
          cbn [fst]. intros [H|H]; [discriminate |].
          revert H. apply IH. intros m' Hin. apply Hm. now right. }
      exact (Hno _ _ Hm _ O22).
Qed.

End ResolveFacts.

(** ** Mappers *)

(** C4 (as amended).  For every input that begins with [github.com/], the
    [GitHub] mapper reports a match and returns [git+https://github.com/]
    followed by the rest of the input, path, query and fragment, byte for
    byte. *)
Theorem GitHub_schemeless (rest : string) :
  GitHub ("github.com/" ++ rest) = ("git+https://github.com/" ++ rest, true).
Proof. reflexivity. Qed.

(** C4, as stated, fails: the output on [github.com/user/repo?ref=main#section]
    is not that input behind [https://]. *)
Lemma GitHub_schemeless_not_https :
  GitHub "github.com/user/repo?ref=main#section"
  = ("git+https://github.com/user/repo?ref=main#section", true)
  /\ GitHub "github.com/user/repo?ref=main#section"
     <> ("https://github.com/user/repo?ref=main#section", true).
Proof. split; [reflexivity | discriminate]. Qed.

Lemma not_org_repo_query (s : string) :
  org_repo_split s = None -> ~ org_repo_query s.
Proof. intros H Hq. apply org_repo_query_iff in Hq. contradiction. Qed.

Lemma mark_not_word (mark : ascii) :
  (mark = "?" \/ mark = "#")%char -> regexp.in_class word mark = false.
Proof. intros [->| ->]; reflexivity. Qed.

Lemma mark_not_slash (mark : ascii) :
  (mark = "?" \/ mark = "#")%char -> Ascii.eqb mark "/" = false.
Proof. intros [->| ->]; reflexivity. Qed.

(** [GitHubOrgRepo] decides the shorthand with a query or fragment. *)
Lemma GitHubOrgRepo_exact (source : string) :
  (org_repo_query source
   /\ GitHubOrgRepo source = ("git+https://github.com/" ++ source, true))
  \/ (~ org_repo_query source /\ GitHubOrgRepo source = ("", false)).
Proof.
  rewrite GitHubOrgRepo_split.
  destruct (org_repo_split source) eqn:E.
  - left. split; [|reflexivity]. apply org_repo_query_iff. congruence.
  - right. split; [|reflexivity]. now apply not_org_repo_query.
Qed.

(** [<org>/<repo>] with nothing after it is not matched. *)
Lemma GitHubOrgRepo_bare (source : string) :
  org_repo_bare source -> GitHubOrgRepo source = ("", false).
Proof.
  intros (org & repo & -> & [Ho Ao] & [Hr Ar]).
  rewrite GitHubOrgRepo_split. unfold org_repo_split.
  rewrite (span_prefix _ org _ Ao) by reflexivity.
  destruct org as [|o org]; [congruence |].
  change ("/" ++ repo) with (String "/" repo).
  cbn [Ascii.eqb Bool.eqb].
  rewrite <- (append_empty_r repo) at 1.
  rewrite (span_prefix _ repo "" Ar) by exact I.
  destruct repo; reflexivity.
Qed.

(** C5 (as amended).  [GitHubOrgRepo] matches every input [<org>/<repo>]
    followed by a query [?...] or a fragment [#...], where each of the two
    segments matches [[A-Za-z0-9_-]+], and maps it to
    [git+https://github.com/<org>/<repo>] with the query and the fragment
    copied byte for byte.  Every input it matches begins with exactly two
    such segments, and its output is [git+https://github.com/] followed by
    the input.  Inputs with three or more segments, with no segment, or a
    bare word (with or without a query or fragment) do not match. *)
Theorem GitHubOrgRepo_shorthand :
  (forall org repo mark rest,
      is_segment org -> is_segment repo -> (mark = "?" \/ mark = "#")%char ->
      GitHubOrgRepo (org ++ "/" ++ repo ++ String mark rest)
      = ("git+https://github.com/" ++ org ++ "/" ++ repo ++ String mark rest,
         true))
  /\ (forall source,
         snd (GitHubOrgRepo source) = true ->
         fst (GitHubOrgRepo source) = "git+https://github.com/" ++ source
         /\ exists org repo rest,
              source = org ++ "/" ++ repo ++ rest
              /\ is_segment org /\ is_segment repo
              /\ (rest = ""
                  \/ exists mark t,
                       rest = String mark t /\ (mark = "?" \/ mark = "#")%char))
  /\ (forall org repo rest,
         is_segment org -> is_segment repo ->
         GitHubOrgRepo (org ++ "/" ++ repo ++ "/" ++ rest) = ("", false))
  /\ GitHubOrgRepo "" = ("", false)
  /\ (forall c rest,
         regexp.in_class word c = false ->
         GitHubOrgRepo (String c rest) = ("", false))
  /\ (forall w mark rest,
         is_segment w -> (mark = "?" \/ mark = "#")%char ->
         GitHubOrgRepo w = ("", false)
         /\ GitHubOrgRepo (w ++ String mark rest) = ("", false)).
Proof.
  split; [|split; [|split; [|split; [|split]]]].
  - intros org repo mark rest Ho Hr Hm. rewrite GitHubOrgRepo_split.
    destruct (org_repo_split_query org repo mark rest Ho Hr Hm)
      as (q & tail & _ & ->).
    reflexivity.
  - intros source.
    destruct (GitHubOrgRepo_exact source) as [[Hq ->]|[_ ->]];
      [|discriminate].
    intros _. split; [reflexivity |].
    destruct Hq as (org & repo & mark & rest & E & Ho & Hr & Hm).
    exists org, repo, (String mark rest). split; [exact E |].
    split; [exact Ho |]. split; [exact Hr |]. right. exists mark, rest. auto.
  - intros org repo rest [Ho Ao] [Hr Ar]. rewrite GitHubOrgRepo_split.
    unfold org_repo_split.
    rewrite (span_prefix _ org _ Ao) by reflexivity.
    destruct org as [|o org]; [congruence |].
    change ("/" ++ repo ++ "/" ++ rest)
      with (String "/" (repo ++ String "/" rest)).
    cbn [Ascii.eqb Bool.eqb].
    rewrite (span_prefix _ repo _ Ar) by reflexivity.
    destruct repo as [|r repo]; [congruence |]. reflexivity.
  - reflexivity.
  - intros c rest Hc. rewrite GitHubOrgRepo_split. unfold org_repo_split.
    cbn [strings.span]. rewrite Hc. reflexivity.
  - intros w mark rest [Hw Aw] Hm. split; rewrite GitHubOrgRepo_split;
      unfold org_repo_split.
    + rewrite <- (append_empty_r w) at 1.
      rewrite (span_prefix _ w "" Aw) by exact I.
      destruct w; reflexivity.
    + rewrite (span_prefix _ w _ Aw) by (now apply mark_not_word).
      destruct w as [|x w]; [congruence |].
      rewrite (mark_not_slash mark Hm). reflexivity.
Qed.

(** C5, as stated, fails twice: the output carries [git+https://], and
    [<org>/<repo>] with no query or fragment is not matched. *)
Lemma GitHubOrgRepo_not_as_stated :
  GitHubOrgRepo "user/repo?ref=main#section"
  = ("git+https://github.com/user/repo?ref=main#section", true)
  /\ GitHubOrgRepo "user/repo?ref=main#section"
     <> ("https://github.com/user/repo?ref=main#section", true)
  /\ GitHubOrgRepo "user/repo" = ("", false).
Proof.
  split; [|split].
  - rewrite GitHubOrgRepo_split. reflexivity.
  - rewrite GitHubOrgRepo_split. discriminate.
  - rewrite GitHubOrgRepo_split. reflexivity.
Qed.

Lemma GitHubOrgRepo_shorthand_witness :
  (is_segment "user" /\ is_segment "repo" /\ ("?" = "?" \/ "?" = "#")%char)
  /\ GitHubOrgRepo "user/repo?ref=main&depth=1#section"
     = ("git+https://github.com/user/repo?ref=main&depth=1#section", true).
Proof.
  assert (Hu : is_segment "user") by (split; [discriminate | reflexivity]).
  assert (Hr : is_segment "repo") by (split; [discriminate | reflexivity]).
  assert (Hm : ("?" = "?" \/ "?" = "#")%char) by (now left).
  split; [auto |].
  exact (proj1 GitHubOrgRepo_shorthand "user" "repo" "?"%char
               "ref=main&depth=1#section" Hu Hr Hm).
Defined.

(** C6 (as amended).  For every input that begins with
    [https://github.com/], the [GitHub] mapper, the first of the default
    set, reports a match and returns the input behind [git+], otherwise
    unchanged; that string is the candidate URL of the default chain.  On
    a string of that form, [git+https://github.com/...], neither [GitHub]
    nor [GitHubOrgRepo] matches. *)
Theorem GitHub_schemed (fs : FileSystem) (rest : string) :
  let s := "https://github.com/" ++ rest in
  GitHub s = ("git+" ++ s, true)
  /\ candidate (mappers Default) s = "git+" ++ s
  /\ GitHub ("git+" ++ s) = ("", false)
  /\ GitHubOrgRepo ("git+" ++ s) = ("", false).
Proof.
  cbv zeta. split; [reflexivity |]. split; [reflexivity |].
  split; [reflexivity |]. rewrite GitHubOrgRepo_split. reflexivity.
Qed.

(** C6, as stated, fails: the default chain alters
    [https://github.com/user/repo]. *)
Lemma GitHub_schemed_altered :
  GitHub "https://github.com/user/repo"
  = ("git+https://github.com/user/repo", true)
  /\ candidate (mappers (@Default plain.fs)) "https://github.com/user/repo"
     <> "https://github.com/user/repo".
Proof. split; [reflexivity | discriminate]. Qed.

(** ** Resolution with the default fetcher *)

Lemma candidate_empty (fs : FileSystem) : candidate (mappers Default) "" = "".
Proof. reflexivity. Qed.

(** C7.  The claim fails on git.go: when [url.Parse] accepts the empty
    string, as a URL with an empty scheme, [Resolve] of [""] with the
    default fetcher returns the [Git] resolver and a [Source] with no
    error, because [Git.Match] is true of every scheme other than
    [https], [git+ssh] and [git]. *)
Theorem Resolve_empty_selects_Git (lib : NetLib) (fs : FileSystem)
  (u : url_URL) :
  url_Parse "" = Some u -> Scheme u = "" ->
  snd (Resolve Default "") = Returned (Some Git, split_subdir u, None).
Proof.
  intros Hp Hs.
  destruct (Resolve_when_parsed Default "" u) as (O & _).
  { rewrite candidate_empty. exact Hp. }
  rewrite O. unfold first_resolver. cbn [resolvers Default find Match File Git].
  rewrite Hs. reflexivity.
Qed.

Lemma Resolve_empty_selects_Git_witness :
  (@url_Parse plain.lib "" = Some zeroURL /\ Scheme zeroURL = "")
  /\ snd (@Resolve plain.lib (@Default plain.fs) "")
     = Returned (Some Git, mkSource (Some zeroURL) "", None).
Proof.
  split; [split; reflexivity |].
  exact (@Resolve_empty_selects_Git plain.lib plain.fs zeroURL
           eq_refl eq_refl).
Defined.

(** With the other revision of [Git.Match] the empty string is rejected:
    it matches no mapper and, parsed as the empty URL, no resolver. *)
Lemma Resolve_empty_rev2 (lib : NetLib) (fs : FileSystem) :
  (forall u, url_Parse "" = Some u -> Scheme u = "" /\ Path u = "") ->
  exists msg,
    snd (Resolve git_rev2.Default "") = Returned (None, zeroSource, Some msg).
Proof.
  intros Hu. destruct (url_Parse "") as [u|] eqn:Hp.
  - destruct (Hu u eq_refl) as [Hs Hpath].
    destruct (Resolve_when_parsed git_rev2.Default "" u) as (O & _).
    { exact Hp. }
    rewrite O. unfold first_resolver.
    cbn [resolvers git_rev2.Default find Match File git_rev2.Git TAR ZIP].
    rewrite Hs, Hpath. cbn. eexists. reflexivity.
  - rewrite Resolve_unfold.
    destruct (Resolve_mappers_log (mappers git_rev2.Default) 0 "")
      as (_ & _ & _ & _ & O).
    change (candidate (mappers git_rev2.Default) "") with "" in O.
    destruct O as [O|((msg & O1) & O2 & O3)].
    + rewrite O, Hp. eexists. reflexivity.
    + exfalso. unfold parsed in O2. cbv in O2.
      repeat (destruct O2 as [O2|O2]; [discriminate |]). exact O2.
Qed.

(** ** The file-path mapper *)

Section FilePathFacts.

Context {fs : FileSystem}.

Lemma home_prefix_not_file (source : string) :
  strings.HasPrefix source "~/" = true ->
  source <> "" /\ strings.HasPrefix source "file://" = false.
Proof.
  destruct source as [|c s]; [discriminate |].
  cbn [strings.HasPrefix]. intros H. apply andb_true_iff in H.
  destruct H as [Hc _]. apply Ascii.eqb_eq in Hc. subst c.
  split; [discriminate | reflexivity].
Qed.

(** [FilePath] past its two early returns. *)
Lemma FilePath_lookup (source : string) :
  source <> "" -> strings.HasPrefix source "file://" = false ->
  FilePath source =
  match
    (if strings.HasPrefix source "~/" then
       match os_UserHomeDir with
       | None => None
       | Some home => Some (filepath_Join home (strings.drop 2 source))
       end
     else Some source)
  with
  | None => ("", false)
  | Some p =>
      match (if negb (filepath_IsAbs p) then filepath_Abs p else Some p) with
      | None => ("", false)
      | Some path =>
          match os_Stat path with
          | None => ("", false)
          | Some info =>
              if negb (IsDir info) then ("", false)
              else
                match filepath_EvalSymlinks path with
                | None => ("", false)
                | Some real => ("file://" ++ real, true)
                end
          end
      end
  end.
Proof.
  intros Hne Hf. unfold FilePath.
  apply String.eqb_neq in Hne. rewrite Hne, Hf. reflexivity.
Qed.

Lemma FilePath_absolute (source path : string) :
  source <> "" -> strings.HasPrefix source "file://" = false ->
  absolute_of source path ->
  FilePath source =
  match os_Stat path with
  | None => ("", false)
  | Some info =>
      if negb (IsDir info) then ("", false)
      else
        match filepath_EvalSymlinks path with
        | None => ("", false)
        | Some real => ("file://" ++ real, true)
        end
  end.
Proof.
  intros Hne Hf Habs. rewrite (FilePath_lookup source Hne Hf).
  destruct Habs as [p He Ha | p q He Ha Hq];
    destruct He as [home Hh Hhome | Hh]; rewrite Hh; try rewrite Hhome;
    rewrite Ha; cbn [negb]; try rewrite Hq; reflexivity.
Qed.

(** C9.  [FilePath] passes a string that begins with [file://] through
    unchanged, with a match.  For any other non-empty source, where the
    path is expanded ([~/] to the home directory) and made absolute: if
    the path exists and is a directory, the result is [file://] followed
    by the symlink-resolved path, with a match; if the path does not
    exist, is not a directory, or the home directory cannot be found, the
    result is a non-match.  The mapper is total, a non-match carries the
    empty string, and every match begins with [file://]. *)
Theorem FilePath_maps_directories (source : string) :
  (strings.HasPrefix source "file://" = true ->
   FilePath source = (source, true))
  /\ (forall path info real,
        source <> "" -> strings.HasPrefix source "file://" = false ->
        absolute_of source path ->
        os_Stat path = Some info -> IsDir info = true ->
        filepath_EvalSymlinks path = Some real ->
        FilePath source = ("file://" ++ real, true))
  /\ (home_lookup_fails source -> FilePath source = ("", false))
  /\ (forall path,
        strings.HasPrefix source "file://" = false ->
        absolute_of source path ->
        os_Stat path = None -> FilePath source = ("", false))
  /\ (forall path info,
        strings.HasPrefix source "file://" = false ->
        absolute_of source path ->
        os_Stat path = Some info -> IsDir info = false ->
        FilePath source = ("", false))
  /\ (snd (FilePath source) = false -> fst (FilePath source) = "")
  /\ (snd (FilePath source) = true ->
      strings.HasPrefix (fst (FilePath source)) "file://" = true).
Proof.
  assert (Hempty : FilePath "" = ("", false)) by reflexivity.
  split; [|split; [|split; [|split; [|split; [|split]]]]].
  - intros Hf. unfold FilePath. rewrite Hf.
    destruct source; [discriminate | reflexivity].
  - intros path info real Hne Hf Habs Hst Hd Hev.
    rewrite (FilePath_absolute source path Hne Hf Habs), Hst, Hd, Hev.
    reflexivity.
  - intros [Hh Hhome].
    destruct (home_prefix_not_file source Hh) as [Hne Hf].
    rewrite (FilePath_lookup source Hne Hf), Hh, Hhome. reflexivity.
  - intros path Hf Habs Hst.
    destruct (String.eqb_spec source "") as [->|Hne]; [exact Hempty |].
    rewrite (FilePath_absolute source path Hne Hf Habs), Hst. reflexivity.
  - intros path info Hf Habs Hst Hd.
    destruct (String.eqb_spec source "") as [->|Hne]; [exact Hempty |].
    rewrite (FilePath_absolute source path Hne Hf Habs), Hst, Hd.
    reflexivity.
  - unfold FilePath.
    repeat match goal with
           | |- context [match ?x with _ => _ end] => destruct x
           end; cbn [fst snd]; congruence.
  - unfold FilePath.
    destruct (String.eqb source ""); [discriminate |].
    destruct (strings.HasPrefix source "file://") eqn:Hf; [intros _; exact Hf |].
    repeat match goal with
           | |- context [match ?x with _ => _ end] => destruct x
           end; cbn [fst snd]; try discriminate; reflexivity.
Qed.

End FilePathFacts.

Lemma FilePath_maps_directories_witness :
  (("proj" <> "" /\ strings.HasPrefix "proj" "file://" = false
    /\ @absolute_of plain.fs "proj" "/work/proj"
    /\ @os_Stat plain.fs "/work/proj" = Some (mkFileInfo true)
    /\ IsDir (mkFileInfo true) = true
    /\ @filepath_EvalSymlinks plain.fs "/work/proj" = Some "/work/proj")
   /\ @FilePath plain.fs "proj" = ("file:///work/proj", true))
  /\ ((@home_lookup_fails plain.fs_no_home "~/src")
      /\ @FilePath plain.fs_no_home "~/src" = ("", false))
  /\ ((strings.HasPrefix "notes.txt" "file://" = false
       /\ @absolute_of plain.fs "notes.txt" "/work/notes.txt"
       /\ @os_Stat plain.fs "/work/notes.txt" = Some (mkFileInfo false)
       /\ IsDir (mkFileInfo false) = false)
      /\ @FilePath plain.fs "notes.txt" = ("", false)).
Proof.
  assert (A1 : @absolute_of plain.fs "proj" "/work/proj").
  { apply (@absolute_made plain.fs "proj" "proj" "/work/proj");
      [apply expanded_same | |]; reflexivity. }
  assert (A2 : @absolute_of plain.fs "notes.txt" "/work/notes.txt").
  { apply (@absolute_made plain.fs "notes.txt" "notes.txt" "/work/notes.txt");
      [apply expanded_same | |]; reflexivity. }
  assert (N : "proj" <> "") by discriminate.
  assert (H : @home_lookup_fails plain.fs_no_home "~/src")
    by (split; reflexivity).
  split; [|split].
  - split; [repeat split; assumption || reflexivity |].
    exact (proj1 (proj2 (@FilePath_maps_directories plain.fs "proj"))
             "/work/proj" (mkFileInfo true) "/work/proj"
             N eq_refl A1 eq_refl eq_refl eq_refl).
  - split; [exact H |].
    exact (proj1 (proj2 (proj2
             (@FilePath_maps_directories plain.fs_no_home "~/src"))) H).
  - split; [repeat split; assumption || reflexivity |].
    exact (proj1 (proj2 (proj2 (proj2 (proj2
             (@FilePath_maps_directories plain.fs "notes.txt")))))
             "/work/notes.txt" (mkFileInfo false) eq_refl A2 eq_refl eq_refl).
Defined.

(** ** The tar resolver *)

Lemma TAR_Match_iff (u : url_URL) :
  Match TAR u = true <-> contains_tar_ext (Path u).
Proof.
  cbn [Match TAR]. rewrite MatchString_tarRe. symmetry.
  apply contains_tar_ext_literal.
Qed.

(** C10 (as amended).  [TAR.Match] is true exactly when the path
    contains, anywhere, a tar extension: [.tar], optionally followed by a
    dot and lowercase letters, or one of the short forms; so every path
    with [.tar] in it matches.  When [Resolve] runs the default resolvers
    on such a URL, [ZIP] (resolver 3) is never consulted, and [TAR] is
    the resolver returned whenever [File] and [Git], registered before
    it, do not match. *)
Theorem TAR_Match_anywhere (lib : NetLib) (fs : FileSystem) :
  (forall u, Match TAR u = true <-> contains_tar_ext (Path u))
  /\ (forall u pre post, Path u = pre ++ ".tar" ++ post -> Match TAR u = true)
  /\ (forall source u,
        url_Parse (candidate (mappers Default) source) = Some u ->
        Match TAR u = true ->
        (forall v, ~ match_called (fst (Resolve Default source)) 3 v)
        /\ (Match File u = false -> Match Git u = false ->
            snd (Resolve Default source)
            = Returned (Some TAR, split_subdir u, None))).
Proof.
  split; [exact TAR_Match_iff |]. split.
  - intros u pre post Hp. apply TAR_Match_iff. exists ".tar".
    split; [constructor | exists pre, post; exact Hp].
  - intros source u Hp Ht.
    destruct (Resolve_when_parsed Default source u Hp) as (O & M & _).
    split.
    + intros v Hc. apply M in Hc. destruct Hc as [_ Hall].
      specialize (Hall 2 TAR (Nat.lt_succ_diag_r 2) eq_refl). congruence.
    + intros Hf Hg. rewrite O. unfold first_resolver.
      cbn [resolvers Default find]. rewrite Hf, Hg, Ht. reflexivity.
Qed.

(** C10, as stated, fails: a [file] URL whose path holds [.tar] is
    dispatched to [File], which is registered before [TAR]. *)
Lemma tar_path_dispatched_to_File :
  Match TAR (mkURL "file" "" None "" "/archive.tar.unknown" "" false false
                   "" "" "") = true
  /\ snd (@Resolve plain.lib (@Default plain.fs) "file:///archive.tar.unknown")
     = Returned
         (Some File,
          mkSource (Some (mkURL "file" "" None "" "/archive.tar.unknown" ""
                                false false "" "" "")) "",
          None)
  /\ File <> TAR.
Proof.
  split; [reflexivity |]. split; [reflexivity |].
  intros H.
  pose proof (f_equal (fun r => Match r (mkURL "file" "" None "" "" ""
                                               false false "" "" "")) H) as E.
  discriminate E.
Qed.

Lemma TAR_Match_anywhere_witness :
  (@url_Parse plain.lib
     (candidate (mappers (@Default plain.fs))
                "https://host/dist.tar.unknown/bundle.zip")
   = Some (mkURL "https" "" None "host" "/dist.tar.unknown/bundle.zip" ""
                 false false "" "" "")
   /\ Match TAR (mkURL "https" "" None "host" "/dist.tar.unknown/bundle.zip"
                       "" false false "" "" "") = true
   /\ Match ZIP (mkURL "https" "" None "host" "/dist.tar.unknown/bundle.zip"
                       "" false false "" "" "") = true)
  /\ snd (@Resolve plain.lib (@Default plain.fs)
            "https://host/dist.tar.unknown/bundle.zip")
     = Returned
         (Some TAR,
          mkSource (Some (mkURL "https" "" None "host"
                                "/dist.tar.unknown/bundle.zip" ""
                                false false "" "" "")) "",
          None).
Proof.
  split; [repeat split; reflexivity |].
  exact (proj2 (proj2 (proj2 (@TAR_Match_anywhere plain.lib plain.fs))
                  "https://host/dist.tar.unknown/bundle.zip"
                  (mkURL "https" "" None "host" "/dist.tar.unknown/bundle.zip"
                         "" false false "" "" "")
                  eq_refl eq_refl)
               eq_refl eq_refl).
Defined.

(** ** Worked resolutions *)

Lemma Resolve_first_matching_resolver_witness :
  @url_Parse plain.lib (candidate [] "http://host/a.tgz//sub/dir")
  = Some (mkURL "http" "" None "host" "/a.tgz//sub/dir" "" false false
                "" "" "")
  /\ snd (@Resolve plain.lib (New [File; http_only; any_path; TAR] [])
            "http://host/a.tgz//sub/dir")
     = Returned
         (Some http_only,
          mkSource (Some (mkURL "http" "" None "host" "/a.tgz" "" false false
                                "" "" "")) "sub/dir",
          None).
Proof.
  split; [reflexivity |].
  exact (proj1 (@Resolve_first_matching_resolver plain.lib
                  (New [File; http_only; any_path; TAR] [])
                  "http://host/a.tgz//sub/dir"
                  (mkURL "http" "" None "host" "/a.tgz//sub/dir" "" false
                         false "" "" "")
                  eq_refl)).
Defined.

Lemma Resolve_splits_subdir_witness :
  snd (@Resolve plain.lib (New [TAR] []) "http://host/a.tgz//sub/dir")
  = Returned
      (Some TAR,
       mkSource (Some (mkURL "http" "" None "host" "/a.tgz" "" false false
                             "" "" "")) "sub/dir",
       None)
  /\ exists u u',
       @url_Parse plain.lib (candidate [] "http://host/a.tgz//sub/dir")
       = Some u
       /\ Match TAR u = true
       /\ (exists i, nth_error [TAR] i = Some TAR
                     /\ match_called
                          (fst (@Resolve plain.lib (New [TAR] [])
                                  "http://host/a.tgz//sub/dir")) i u)
       /\ (forall i v,
             match_called
               (fst (@Resolve plain.lib (New [TAR] [])
                       "http://host/a.tgz//sub/dir")) i v -> v = u)
       /\ Some (mkURL "http" "" None "host" "/a.tgz" "" false false "" "" "")
          = Some u'
       /\ u' = with_Path u (Path u')
       /\ (forall base rest,
             first_occurrence (Path u) "//" base rest ->
             Path u' = base /\ "sub/dir" = rest)
       /\ (absent (Path u) "//" ->
           Path u' = Path u /\ u' = u /\ "sub/dir" = "").
Proof.
  split; [reflexivity |].
  exact (@Resolve_splits_subdir plain.lib (New [TAR] [])
           "http://host/a.tgz//sub/dir" TAR
           (mkSource (Some (mkURL "http" "" None "host" "/a.tgz" "" false
                                  false "" "" "")) "sub/dir")
           eq_refl).
Defined.

Lemma Resolve_unsupported_source_witness :
  (@url_Parse plain.lib (candidate [GitHub; GitHubOrgRepo] "ftp://host/file")
   = Some (mkURL "ftp" "" None "host" "/file" "" false false "" "" "")
   /\ forall r, In r [File; git_rev2.Git; TAR; ZIP] ->
                Match r (mkURL "ftp" "" None "host" "/file" "" false false
                               "" "" "") = false)
  /\ snd (@Resolve plain.lib
            (New [File; git_rev2.Git; TAR; ZIP] [GitHub; GitHubOrgRepo])
            "ftp://host/file")
     = Returned (None, zeroSource, Some "unsupported source: ftp://host/file").
Proof.
  assert (H : forall r, In r [File; git_rev2.Git; TAR; ZIP] ->
                        Match r (mkURL "ftp" "" None "host" "/file" "" false
                                       false "" "" "") = false).
  { intros r [<-|[<-|[<-|[<-|[]]]]]; reflexivity. }
  split; [split; [reflexivity | exact H] |].
  exact (proj1 (@Resolve_unsupported_source plain.lib
                  (New [File; git_rev2.Git; TAR; ZIP] [GitHub; GitHubOrgRepo])
                  "ftp://host/file"
                  (mkURL "ftp" "" None "host" "/file" "" false false "" "" "")
                  eq_refl H)).
Defined.

(** Two mappers that both match: only the first one's output is used. *)
Lemma Resolve_parses_first_mapped_witness :
  candidate [upper; lower] "x" = "http://first/x"
  /\ parsed (fst (@Resolve plain.lib (New [any_path] [upper; lower]) "x"))
            "http://first/x"
  /\ forall i s,
       mapper_called (fst (@Resolve plain.lib (New [any_path] [upper; lower])
                             "x")) i s ->
       i = 0.
Proof.
  pose proof (@Resolve_parses_first_mapped plain.lib
                (New [any_path] [upper; lower]) "x") as H.
  cbv zeta in H. destruct H as (P & _ & C & _).
  split; [reflexivity |]. split; [exact P |].
  intros i s Hc. destruct (C i s Hc) as [_ Hall].
  destruct i as [|i]; [reflexivity |].
  specialize (Hall 0 upper (Nat.lt_0_succ i) eq_refl). discriminate Hall.
Defined.

(** ** The tables of the package's tests *)

(** [TestTARMatch]. *)
Example TestTARMatch :
  map (fun p => Match TAR (path_only p))
      ["/archive.tar"; "/archive.tar.gz"; "/archive.tar.bz2";
       "/archive.tar.xz"; "/archive.tar.zst"; "/archive.tar.lz";
       "/archive.tar.Z"; "/archive.tgz"; "/archive.tbz"; "/archive.tbz2";
       "/archive.txz"; "/archive.tzstd"; "/archive.tlz"; "/archive.tZ";
       "/some/deep/path/archive.tar.gz"; "/archive.tar.gz?token=abc";
       "/archive.zip"; "/file.txt"; "/tarball.zip"; "/archive"; ""]
  = [true; true; true; true; true; true; true; true; true; true; true; true;
     true; true; true; true; false; false; false; false; false].
Proof. vm_compute. reflexivity. Qed.

(** [TestZIPMatch]. *)
Example TestZIPMatch :
  map (fun p => Match ZIP (path_only p))
      ["/archive.zip"; "/some/deep/path/archive.zip";
       "/archive.zip?token=abc"; "/archive.ZIP"; "/archive.tar.gz";
       "/file.txt"; "/zipfile.tar"; "/archive"; ""]
  = [true; true; false; false; false; false; false; false; false].
Proof. vm_compute. reflexivity. Qed.

(** [TestFileMatch]. *)
Example TestFileMatch :
  map (fun sch => Match File (scheme_only sch)) ["file"; "https"; "git"; ""]
  = [true; false; false; false].
Proof. vm_compute. reflexivity. Qed.

(** [TestGitMatch] expects [true; true; true; false; false; false; false;
    false] for these schemes.  The revision with [convertGitURL] gives
    that; [Git.Match] of git.go gives the opposite answer on all of them
    but [git+https] and [https]. *)
Example TestGitMatch_rev2 :
  map (fun sch => Match git_rev2.Git (scheme_only sch))
      ["git+https"; "git+ssh"; "git"; "https"; "http"; "ssh"; "file"; ""]
  = [true; true; true; false; false; false; false; false].
Proof. vm_compute. reflexivity. Qed.

Example TestGitMatch_git_go :
  map (fun sch => Match Git (scheme_only sch))
      ["git+https"; "git+ssh"; "git"; "https"; "http"; "ssh"; "file"; ""]
  = [true; false; false; false; true; true; true; true].
Proof. vm_compute. reflexivity. Qed.

(** The shorthand of the package's README through the default fetcher:
    the mapped URL carries the query, and [Git] is selected. *)
Example Resolve_shorthand :
  snd (@Resolve plain.lib (@Default plain.fs) "user/repo?ref=main&depth=1")
  = Returned
      (Some Git,
       mkSource (Some (mkURL "git+https" "" None "github.com" "/user/repo" ""
                             false false "ref=main&depth=1" "" "")) "",
       None).
Proof. vm_compute. reflexivity. Qed.

(* ================================================================= *)
(** * Further properties *)

(** ** The one-segment shorthand *)

Lemma in_hash_mark (c : ascii) :
  regexp.in_class hash_mark c = true <-> (c = "?" \/ c = "#")%char.
Proof.
  split.
  - intros Hq. unfold regexp.in_class, hash_mark in Hq. simpl in Hq.
    unfold regexp.in_range in Hq. simpl in Hq.
    rewrite orb_false_r in Hq. apply orb_true_iff in Hq.
    destruct Hq as [Hq|Hq]; apply andb_true_iff in Hq; destruct Hq as [H1 H2];
      pose proof (leb_antisym _ _ H1 H2) as <-; auto.
  - intros [->| ->]; reflexivity.
Qed.

Lemma word_not_hash_mark (c : ascii) :
  regexp.in_class word c = true -> regexp.in_class hash_mark c = false.
Proof.
  intros H. destruct (regexp.in_class hash_mark c) eqn:Hq; [|reflexivity].
  apply in_hash_mark in Hq. destruct Hq as [->| ->]; discriminate.
Qed.

(** The match of [singleGitHubOrg] at the beginning of the text, against
    the scan. *)
Lemma run_singleGitHubOrg (R : Type) (kf : regexp.cont R) (s : string) :
  (forall j t m, kf j t m <> None) ->
  regexp.run singleGitHubOrg 0 s [] kf =
  match repo_split s with
  | Some (repo, mark, q, tail) =>
      kf (String.length (repo ++ String mark q)) tail
         [(2, String mark q); (1, repo)]
  | None => None
  end.
Proof.
  intros Hkf. unfold singleGitHubOrg, repo_split.
  rewrite run_Seq, run_Bol_0, run_Seq, run_Group.
  rewrite (run_Plus_span R (regexp.in_class word)); [|reflexivity|].
  2:{ left. intros j c t m Hc. rewrite run_Group, run_Seq, run_Class_cons.
      fold hash_mark. now rewrite (word_not_hash_mark c Hc). }
  pose proof (span_append (regexp.in_class word) s) as Es.
  destruct (strings.span (regexp.in_class word) s) as [repo r1].
  cbn [fst snd] in Es.
  destruct repo as [|r repo]; [reflexivity |].
  destruct r1 as [|mark r2]; [reflexivity |].
  rewrite run_Group, run_Seq, run_Class_cons. fold hash_mark.
  destruct (regexp.in_class hash_mark mark); [|reflexivity].
  rewrite (run_Star_span R not_newline); [|apply run_Any_step|].
  2:{ right. intros j t m. apply Hkf. }
  pose proof (span_append not_newline r2) as Eq.
  destruct (strings.span not_newline r2) as [q tail].
  cbn [fst snd] in *.
  set (repo' := String r repo) in *.
  assert (L : S (0 + String.length repo') + String.length q
              = String.length (repo' ++ String mark q)).
  { rewrite length_append. cbn [String.length]. lia. }
  rewrite L. f_equal. f_equal.
  - f_equal.
    replace (String.length (repo' ++ String mark q)
             - (0 + String.length repo'))
      with (S (String.length q)) by (rewrite <- L; lia).
    cbn [strings.take]. f_equal. rewrite <- Eq. apply take_append.
  - f_equal. f_equal.
    replace (0 + String.length repo' - 0) with (String.length repo') by lia.
    rewrite <- Es. apply take_append.
Qed.

Lemma find_from_singleGitHubOrg (s : string) :
  regexp.find_from singleGitHubOrg 0 s =
  match repo_split s with
  | Some (repo, mark, q, tail) =>
      Some (regexp.mkMatch 0 (String.length (repo ++ String mark q))
              [(2, String mark q); (1, repo)])
  | None => None
  end.
Proof.
  unfold singleGitHubOrg at 1. rewrite find_from_Bol_0. fold singleGitHubOrg.
  unfold regexp.match_at. rewrite run_singleGitHubOrg by discriminate.
  destruct (repo_split s) as [[[[repo mark] q] tail]|]; reflexivity.
Qed.

Lemma repo_split_Some (s repo : string) (mark : ascii) (q tail : string) :
  repo_split s = Some (repo, mark, q, tail) ->
  s = repo ++ String mark (q ++ tail)
  /\ is_segment repo /\ (mark = "?" \/ mark = "#")%char.
Proof.
  unfold repo_split.
  pose proof (span_append (regexp.in_class word) s) as Es.
  pose proof (span_all (regexp.in_class word) s) as As.
  destruct (strings.span (regexp.in_class word) s) as [repo' r1].
  cbn [fst snd] in *.
  destruct repo' as [|r repo']; [discriminate |].
  destruct r1 as [|mark' r2]; [discriminate |].
  destruct (regexp.in_class hash_mark mark') eqn:Hm; [|discriminate].
  pose proof (span_append not_newline r2) as Eq.
  destruct (strings.span not_newline r2) as [q' tail'].
  cbn [fst snd] in *.
  intros H. injection H as <- <- <- <-.
  split; [|split].
  - rewrite <- Es, <- Eq. reflexivity.
  - split; [discriminate | exact As].
  - now apply in_hash_mark.
Qed.

Lemma repo_split_query (repo : string) (mark : ascii) (rest : string) :
  is_segment repo -> (mark = "?" \/ mark = "#")%char ->
  exists q tail,
    rest = q ++ tail
    /\ repo_split (repo ++ String mark rest) = Some (repo, mark, q, tail).
Proof.
  intros [Hr Ar] Hm.
  exists (fst (strings.span not_newline rest)),
         (snd (strings.span not_newline rest)).
  split; [symmetry; apply span_append |].
  unfold repo_split.
  rewrite (span_prefix _ repo _ Ar) by (now apply mark_not_word).
  destruct repo as [|r repo]; [congruence |].
  rewrite (proj2 (in_hash_mark mark) Hm).
  destruct (strings.span not_newline rest) as [q tail]. reflexivity.
Qed.

Lemma repo_query_iff (s : string) : repo_query s <-> repo_split s <> None.
Proof.
  split.
  - intros (repo & mark & rest & -> & Hr & Hm).
    destruct (repo_split_query repo mark rest Hr Hm) as (q & tail & _ & ->).
    discriminate.
  - destruct (repo_split s) as [[[[repo mark] q] tail]|] eqn:E; [|congruence].
    intros _. apply repo_split_Some in E. destruct E as (E & Hr & Hm).
    exists repo, mark, (q ++ tail). auto.
Qed.

(** Literal text in a replacement template stands for itself. *)
Lemma template_pieces_text (t rest : string) :
  no_dollar t ->
  regexp.template_pieces regexp.InText (t ++ rest) =
  (map (fun c => regexp.Text (String c "")) (list_ascii_of_string t)
     ++ regexp.template_pieces regexp.InText rest)%list.
Proof.
  unfold no_dollar. induction t as [|c t IH]; intros H; [reflexivity |].
  cbn [strings.all_bytes] in H. apply andb_true_iff in H.
  destruct H as [Hc Ht]. apply negb_true_iff in Hc.
  cbn [append regexp.template_pieces]. rewrite Hc, (IH Ht). reflexivity.
Qed.

Lemma expand_pieces_text (t : string) (ps : list regexp.piece)
  (src : string) (mt : regexp.Match) :
  regexp.expand_pieces
    (map (fun c => regexp.Text (String c "")) (list_ascii_of_string t) ++ ps)
    src mt
  = t ++ regexp.expand_pieces ps src mt.
Proof.
  induction t as [|c t IH]; [reflexivity |].
  cbn [list_ascii_of_string map app regexp.expand_pieces append].
  now rewrite IH.
Qed.

Lemma no_dollar_append (a b : string) :
  no_dollar a -> no_dollar b -> no_dollar (a ++ b).
Proof.
  unfold no_dollar. induction a as [|c a IH]; intros Ha Hb; [exact Hb |].
  cbn [append strings.all_bytes] in *. apply andb_true_iff in Ha.
  destruct Ha as [Hc Ha]. now rewrite Hc, IH.
Qed.

(** The match of [SingleGitHubOrg] and its output when the organization
    has no [$] in it. *)
Lemma SingleGitHubOrg_split (org s : string) :
  no_dollar org ->
  SingleGitHubOrg org s =
  match repo_split s with
  | Some _ => ("git+https://github.com/" ++ org ++ "/" ++ s, true)
  | None => ("", false)
  end.
Proof.
  intros Hd. unfold SingleGitHubOrg, regexp.MatchString.
  rewrite find_from_singleGitHubOrg.
  destruct (repo_split s) as [[[[repo mark] q] tail]|] eqn:E; [|reflexivity].
  f_equal.
  destruct (repo_split_Some _ _ _ _ _ E) as (Es & [Hr _] & _).
  pose proof (find_from_singleGitHubOrg s) as Hfind. rewrite E in Hfind.
  unfold singleGitHubOrg at 1. unfold singleGitHubOrg at 1 in Hfind.
  rewrite (ReplaceAllString_anchored _ _ _ _ Hfind); [|reflexivity|].
  2:{ cbn [regexp.m_end]. destruct repo; [congruence | simpl; lia]. }
  unfold regexp.expand.
  replace ("git+https://github.com/" ++ org ++ "/$1$2")
    with (("git+https://github.com/" ++ org ++ "/") ++ "$1$2")
    by (rewrite !append_assoc; reflexivity).
  rewrite template_pieces_text.
  2:{ apply (no_dollar_append "git+https://github.com/"); [reflexivity |].
      apply no_dollar_append; [exact Hd | reflexivity]. }
  rewrite expand_pieces_text.
  change (regexp.template_pieces regexp.InText "$1$2")
    with [regexp.Ref 1; regexp.Ref 2].
  cbn [regexp.expand_pieces regexp.group_text regexp.submatch
       regexp.m_groups regexp.m_end Nat.eqb].
  assert (Es' : s = (repo ++ String mark q) ++ tail)
    by (rewrite Es, !append_assoc; reflexivity).
  rewrite append_empty_r. rewrite Es' at 1.
  rewrite drop_append, Es, !append_assoc. reflexivity.
Qed.

(** Whatever the organization, the matches of [SingleGitHubOrg] are
    those of the scan and the output begins with the literal text of the
    template. *)
Lemma SingleGitHubOrg_accepts (org s : string) :
  snd (SingleGitHubOrg org s) = is_some (repo_split s).
Proof.
  unfold SingleGitHubOrg, regexp.MatchString.
  rewrite find_from_singleGitHubOrg.
  destruct (repo_split s) as [[[[repo mark] q] tail]|]; reflexivity.
Qed.

Lemma SingleGitHubOrg_output_prefix (org s : string) :
  snd (SingleGitHubOrg org s) = true ->
  strings.HasPrefix (fst (SingleGitHubOrg org s)) "git+https://github.com/"
  = true.
Proof.
  unfold SingleGitHubOrg, regexp.MatchString.
  pose proof (find_from_singleGitHubOrg s) as Hfind.
  destruct (repo_split s) as [[[[repo mark] q] tail]|] eqn:E.
  2:{ rewrite Hfind. discriminate. }
  rewrite Hfind. intros _. cbn [fst].
  destruct (repo_split_Some _ _ _ _ _ E) as (Es & [Hr _] & _).
  unfold singleGitHubOrg at 1. unfold singleGitHubOrg at 1 in Hfind.
  rewrite (ReplaceAllString_anchored _ _ _ _ Hfind); [|reflexivity|].
  2:{ cbn [regexp.m_end]. destruct repo; [congruence | simpl; lia]. }
  unfold regexp.expand.
  rewrite (template_pieces_text "git+https://github.com/" (org ++ "/$1$2"))
    by reflexivity.
  rewrite expand_pieces_text, append_assoc. apply HasPrefix_append.
Qed.

(** X1.  For an organization name without [$], [SingleGitHubOrg] maps
    [<repo>] followed by a query or a fragment to
    [git+https://github.com/<org>/] followed by the input, byte for
    byte. *)
Theorem SingleGitHubOrg_maps (org repo : string) (mark : ascii)
  (rest : string) :
  no_dollar org -> is_segment repo -> (mark = "?" \/ mark = "#")%char ->
  SingleGitHubOrg org (repo ++ String mark rest)
  = ("git+https://github.com/" ++ org ++ "/" ++ repo ++ String mark rest,
     true).
Proof.
  intros Hd Hr Hm. rewrite (SingleGitHubOrg_split _ _ Hd).
  destruct (repo_split_query repo mark rest Hr Hm) as (q & tail & _ & ->).
  reflexivity.
Qed.

Lemma SingleGitHubOrg_maps_witness :
  (no_dollar "my-org" /\ is_segment "my-repo" /\ ("#" = "?" \/ "#" = "#")%char)
  /\ SingleGitHubOrg "my-org" "my-repo#readme?x=1"
     = ("git+https://github.com/my-org/my-repo#readme?x=1", true).
Proof.
  assert (Hd : no_dollar "my-org") by reflexivity.
  assert (Hr : is_segment "my-repo") by (split; [discriminate | reflexivity]).
  assert (Hm : ("#" = "?" \/ "#" = "#")%char) by (now right).
  split; [auto |].
  exact (SingleGitHubOrg_maps "my-org" "my-repo" "#"%char "readme?x=1"
                              Hd Hr Hm).
Defined.

(** X2.  Whatever the organization, [SingleGitHubOrg] matches exactly
    the inputs that are one segment [[A-Za-z0-9_-]+] followed by [?] or
    [#] and any further text; everything else is a non-match with the
    empty string, in particular a segment followed by a slash (the
    org/repo form) and a segment alone. *)
Theorem SingleGitHubOrg_matches_iff (org : string) :
  (forall source,
      snd (SingleGitHubOrg org source) = true <-> repo_query source)
  /\ (forall source,
         ~ repo_query source -> SingleGitHubOrg org source = ("", false))
  /\ (forall w rest,
         is_segment w -> SingleGitHubOrg org (w ++ "/" ++ rest) = ("", false))
  /\ (forall w, is_segment w -> SingleGitHubOrg org w = ("", false)).
Proof.
  assert (Hnone : forall source,
             repo_split source = None ->
             SingleGitHubOrg org source = ("", false)).
  { intros source E. unfold SingleGitHubOrg, regexp.MatchString.
    rewrite find_from_singleGitHubOrg, E. reflexivity. }
  split; [|split; [|split]].
  - intros source. rewrite SingleGitHubOrg_accepts, repo_query_iff.
    destruct (repo_split source); cbn; split; congruence.
  - intros source Hn. apply Hnone.
    destruct (repo_split source) eqn:E; [|reflexivity].
    exfalso. apply Hn, repo_query_iff. congruence.
  - intros w rest [Hw Aw]. apply Hnone. unfold repo_split.
    rewrite (span_prefix _ w _ Aw) by reflexivity.
    destruct w; [congruence | reflexivity].
  - intros w [Hw Aw]. apply Hnone. unfold repo_split.
    rewrite <- (append_empty_r w) at 1.
    rewrite (span_prefix _ w "" Aw) by exact I.
    destruct w; reflexivity.
Qed.

Lemma HasPrefix_trans (s p q : string) :
  strings.HasPrefix s p = true -> strings.HasPrefix p q = true ->
  strings.HasPrefix s q = true.
Proof.
  intros H1 H2. apply HasPrefix_inv in H1. apply HasPrefix_inv in H2.
  destruct H1 as [t ->]. destruct H2 as [t' ->].
  rewrite append_assoc. apply HasPrefix_append.
Qed.

(** No GitHub mapper matches a string that begins with [git+]. *)
Lemma git_plus_unmatched (org t : string) :
  strings.HasPrefix t "git+" = true ->
  accepts t GitHub = false
  /\ accepts t GitHubOrgRepo = false
  /\ accepts t (SingleGitHubOrg org) = false.
Proof.
  intros H. apply HasPrefix_inv in H. destruct H as [rest ->].
  unfold accepts. split; [reflexivity |]. split.
  - rewrite GitHubOrgRepo_split. reflexivity.
  - rewrite SingleGitHubOrg_accepts. reflexivity.
Qed.

Lemma GitHub_mappers_disjoint (org source : string) :
  (accepts source GitHub = true ->
   accepts source GitHubOrgRepo = false
   /\ accepts source (SingleGitHubOrg org) = false)
  /\ (accepts source GitHubOrgRepo = true ->
      accepts source (SingleGitHubOrg org) = false).
Proof.
  unfold accepts. split.
  - unfold GitHub.
    destruct (strings.HasPrefix source "github.com/") eqn:H1.
    + intros _. apply HasPrefix_inv in H1. destruct H1 as [t ->]. split.
      * rewrite GitHubOrgRepo_split. reflexivity.
      * rewrite SingleGitHubOrg_accepts. reflexivity.
    + destruct (strings.HasPrefix source "https://github.com/") eqn:H2;
        [|discriminate].
      intros _. apply HasPrefix_inv in H2. destruct H2 as [t ->]. split.
      * rewrite GitHubOrgRepo_split. reflexivity.
      * rewrite SingleGitHubOrg_accepts. reflexivity.
  - destruct (GitHubOrgRepo_exact source) as [[Hq _]|[_ ->]]; [|discriminate].
    intros _. destruct Hq as (o & r & mark & rest & -> & [Ho Ao] & _).
    rewrite SingleGitHubOrg_accepts. unfold repo_split.
    rewrite (span_prefix _ o _ Ao) by reflexivity.
    destruct o; [congruence | reflexivity].
Qed.

(** The candidate URL does not depend on the order of the mappers when
    any two of them that match the input give the same output. *)
Lemma candidate_agree_permutation (ms ms' : list Mapper) (source : string) :
  Permutation ms ms' ->
  (forall m1 m2, In m1 ms -> In m2 ms ->
                 accepts source m1 = true -> accepts source m2 = true ->
                 fst (m1 source) = fst (m2 source)) ->
  candidate ms source = candidate ms' source.
Proof.
  intros P. induction P as [|x l l' P IH|x y l|l l' l'' P1 IH1 P2 IH2];
    intros Hag.
  - reflexivity.
  - rewrite !candidate_cons. destruct (accepts source x); [reflexivity |].
    apply IH. intros m1 m2 H1 H2. apply Hag; now right.
  - rewrite !candidate_cons.
    destruct (accepts source x) eqn:Hx, (accepts source y) eqn:Hy;
      try reflexivity.
    apply Hag; [now left | right; now left | exact Hy | exact Hx].
  - rewrite IH1 by exact Hag. apply IH2.
    intros m1 m2 H1 H2. apply Hag; eapply Permutation_in;
      try eassumption; now apply Permutation_sym.
Qed.

(** X3.  The three GitHub mappers are pairwise exclusive: no input is
    matched by two of them, so in whatever order they are registered the
    candidate URL is the same. *)
Theorem GitHub_mappers_exclusive (org source : string) :
  (accepts source GitHub = true ->
   accepts source GitHubOrgRepo = false
   /\ accepts source (SingleGitHubOrg org) = false)
  /\ (accepts source GitHubOrgRepo = true ->
      accepts source (SingleGitHubOrg org) = false)
  /\ (forall ms,
         Permutation [GitHub; GitHubOrgRepo; SingleGitHubOrg org] ms ->
         candidate ms source
         = candidate [GitHub; GitHubOrgRepo; SingleGitHubOrg org] source).
Proof.
  destruct (GitHub_mappers_disjoint org source) as [D1 D2].
  split; [exact D1 |]. split; [exact D2 |].
  intros ms P. symmetry. apply candidate_agree_permutation; [exact P |].
  intros m1 m2 H1 H2 A1 A2.
  destruct H1 as [<-|[<-|[<-|[]]]]; destruct H2 as [<-|[<-|[<-|[]]]];
    try reflexivity; exfalso.
  - destruct (D1 A1). congruence.
  - destruct (D1 A1). congruence.
  - destruct (D1 A2). congruence.
  - specialize (D2 A1). congruence.
  - destruct (D1 A2). congruence.
  - specialize (D2 A2). congruence.
Qed.

(** X16.  Registration order of the mappers matters only where they
    conflict: if any two mappers of a list that both match the input
    give the same output, every reordering of the list yields the same
    candidate URL. *)
Theorem candidate_order_irrelevant (ms ms' : list Mapper) (source : string) :
  Permutation ms ms' ->
  (forall m1 m2, In m1 ms -> In m2 ms ->
                 accepts source m1 = true -> accepts source m2 = true ->
                 fst (m1 source) = fst (m2 source)) ->
  candidate ms source = candidate ms' source.
Proof. exact (candidate_agree_permutation ms ms' source). Qed.

Lemma candidate_order_irrelevant_witness :
  (Permutation [upper; GitHub; upper] [GitHub; upper; upper]
   /\ forall m1 m2,
        In m1 [upper; GitHub; upper] -> In m2 [upper; GitHub; upper] ->
        accepts "x" m1 = true -> accepts "x" m2 = true ->
        fst (m1 "x") = fst (m2 "x"))
  /\ candidate [upper; GitHub; upper] "x"
     = candidate [GitHub; upper; upper] "x".
Proof.
  assert (P : Permutation [upper; GitHub; upper] [GitHub; upper; upper])
    by apply perm_swap.
  assert (A : forall m1 m2,
             In m1 [upper; GitHub; upper] -> In m2 [upper; GitHub; upper] ->
             accepts "x" m1 = true -> accepts "x" m2 = true ->
             fst (m1 "x") = fst (m2 "x")).
  { intros m1 m2 H1 H2 A1 A2.
    destruct H1 as [<-|[<-|[<-|[]]]]; destruct H2 as [<-|[<-|[<-|[]]]];
      try reflexivity; discriminate. }
  split; [split; assumption |].
  exact (candidate_order_irrelevant [upper; GitHub; upper]
           [GitHub; upper; upper] "x" P A).
Defined.

(** X4.  The output of a GitHub mapper is matched by none of the GitHub
    mappers: mapping an already mapped string again reports no match. *)
Theorem GitHub_mappers_output_unmatched (org org' source : string)
  (m : Mapper) :
  In m [GitHub; GitHubOrgRepo; SingleGitHubOrg org] ->
  accepts source m = true ->
  accepts (fst (m source)) GitHub = false
  /\ accepts (fst (m source)) GitHubOrgRepo = false
  /\ accepts (fst (m source)) (SingleGitHubOrg org') = false.
Proof.
  intros Hin Hacc. apply git_plus_unmatched.
  destruct Hin as [<-|[<-|[<-|[]]]]; unfold accepts in Hacc.
  - unfold GitHub in *.
    destruct (strings.HasPrefix source "github.com/"); [reflexivity |].
    destruct (strings.HasPrefix source "https://github.com/");
      [reflexivity | discriminate].
  - destruct (GitHubOrgRepo_exact source) as [[_ E]|[_ E]];
      rewrite E in *; [reflexivity | discriminate].
  - apply (HasPrefix_trans _ _ _ (SingleGitHubOrg_output_prefix _ _ Hacc)).
    reflexivity.
Qed.

Lemma GitHub_mappers_output_unmatched_witness :
  (In GitHubOrgRepo [GitHub; GitHubOrgRepo; SingleGitHubOrg "block"]
   /\ accepts "block/getit?ref=main" GitHubOrgRepo = true)
  /\ accepts "git+https://github.com/block/getit?ref=main" GitHub = false
  /\ accepts "git+https://github.com/block/getit?ref=main" GitHubOrgRepo
     = false
  /\ accepts "git+https://github.com/block/getit?ref=main"
             (SingleGitHubOrg "other") = false.
Proof.
  assert (Hin : In GitHubOrgRepo
                   [GitHub; GitHubOrgRepo; SingleGitHubOrg "block"])
    by (right; now left).
  assert (Ha : accepts "block/getit?ref=main" GitHubOrgRepo = true)
    by (unfold accepts; rewrite GitHubOrgRepo_split; reflexivity).
  split; [auto |].
  pose proof (GitHub_mappers_output_unmatched "block" "other"
                "block/getit?ref=main" GitHubOrgRepo Hin Ha) as H.
  rewrite GitHubOrgRepo_split in H. exact H.
Defined.

(** ** The compression option *)

Lemma HasSuffix_iff (s suffix : string) :
  strings.HasSuffix s suffix = true <-> ends_with s suffix.
Proof.
  unfold strings.HasSuffix, ends_with. split.
  - intros H. apply andb_true_iff in H. destruct H as [_ H].
    apply String.eqb_eq in H.
    exists (strings.take (String.length s - String.length suffix) s).
    rewrite <- H at 2. symmetry. apply take_drop.
  - intros [pre ->]. rewrite length_append.
    apply andb_true_iff. split; [apply Nat.leb_le; lia |].
    replace (String.length pre + String.length suffix - String.length suffix)
      with (String.length pre) by lia.
    rewrite drop_append. apply String.eqb_refl.
Qed.

Lemma all_bytes_append (p : ascii -> bool) (a b : string) :
  strings.all_bytes p (a ++ b) = strings.all_bytes p a && strings.all_bytes p b.
Proof.
  induction a as [|c a IH]; [reflexivity |].
  cbn [append strings.all_bytes]. now rewrite IH, andb_assoc.
Qed.

Lemma lower_byte_not_upper (c : ascii) : not_upper (strings.lower_byte c) = true.
Proof. destruct c as [[] [] [] [] [] [] [] []]; reflexivity. Qed.

Lemma ToLower_not_upper (s : string) :
  strings.all_bytes not_upper (strings.ToLower s) = true.
Proof.
  induction s as [|c s IH]; [reflexivity |].
  cbn [strings.ToLower strings.all_bytes].
  now rewrite lower_byte_not_upper, IH.
Qed.

(** A lower-cased string does not end with text that has an upper-case
    letter. *)
Lemma ToLower_no_upper_suffix (s suffix : string) :
  strings.all_bytes not_upper suffix = false ->
  strings.HasSuffix (strings.ToLower s) suffix = false.
Proof.
  intros Hs. destruct (strings.HasSuffix (strings.ToLower s) suffix) eqn:H;
    [|reflexivity].
  apply HasSuffix_iff in H. destruct H as [pre E].
  pose proof (ToLower_not_upper s) as A.
  rewrite E, all_bytes_append, Hs, andb_false_r in A. discriminate.
Qed.

(** X5.  On an ASCII path, [compressionFlag] returns one of [-z], [-j],
    [-J], [--zstd], [--lzip] and [-a]: the path is lower-cased before the
    suffixes are compared, so the cases [.tar.Z] and [.tZ] never apply
    and [-Z] is never the compression option [TAR.Fetch] gives to
    [tar]. *)
Theorem compressionFlag_never_Z (path dest : string) :
  ascii_only path ->
  compressionFlag path <> "-Z"
  /\ exists flag,
       TAR_Fetch_args path dest = ["-x"; "-C"; dest; flag]
       /\ In flag compression_flags.
Proof.
  intros _.
  assert (Hin : In (compressionFlag path) compression_flags).
  { unfold compressionFlag. cbv zeta.
    rewrite (ToLower_no_upper_suffix path ".tar.Z") by reflexivity.
    rewrite (ToLower_no_upper_suffix path ".tZ") by reflexivity.
    cbn [orb].
    repeat match goal with
           | |- context [if ?b then _ else _] => destruct b
           end; cbn; tauto. }
  split.
  - intros E. rewrite E in Hin. cbn in Hin.
    repeat (destruct Hin as [Hin|Hin]; [discriminate |]). exact Hin.
  - exists (compressionFlag path). split; [reflexivity | exact Hin].
Qed.

Lemma compressionFlag_never_Z_witness :
  ascii_only "/dist/archive.tar.Z"
  /\ compressionFlag "/dist/archive.tar.Z" = "-a"
  /\ compressionFlag "/dist/archive.tar.Z" <> "-Z".
Proof.
  split; [reflexivity |]. split; [reflexivity |].
  exact (proj1 (compressionFlag_never_Z "/dist/archive.tar.Z" "out"
                  eq_refl)).
Defined.

Lemma occurs_in_suffix (l post s : string) :
  ends_with s (l ++ post) -> occurs_in l s.
Proof. intros [pre ->]. exists pre, post. reflexivity. Qed.

(** X6.  On an ASCII path with no upper-case letter, whenever
    [compressionFlag] names a compression (anything but [-a]) the path
    ends in an archive suffix that [TAR.Match] accepts. *)
Theorem compressionFlag_implies_TAR_Match (u : url_URL) :
  ascii_only (Path u) ->
  strings.ToLower (Path u) = Path u ->
  compressionFlag (Path u) <> "-a" ->
  Match TAR u = true.
Proof.
  intros _ Hl Hf. apply TAR_Match_iff, contains_tar_ext_literal.
  unfold compressionFlag in Hf. cbv zeta in Hf. rewrite Hl in Hf.
  assert (Hs : forall suf l post,
             suf = l ++ post -> In l tar_literals ->
             strings.HasSuffix (Path u) suf = true ->
             exists l, In l tar_literals /\ occurs_in l (Path u)).
  { intros suf l post -> Hin H. apply HasSuffix_iff in H.
    exists l. split; [exact Hin | exact (occurs_in_suffix _ _ _ H)]. }
  destruct (strings.HasSuffix (Path u) ".tar.gz") eqn:H1;
    [exact (Hs _ ".tar" ".gz" eq_refl (or_introl eq_refl) H1) |].
  destruct (strings.HasSuffix (Path u) ".tgz") eqn:H2;
    [apply (Hs _ ".tgz" "" eq_refl); [cbn; tauto | exact H2] |].
  destruct (strings.HasSuffix (Path u) ".tar.bz2") eqn:H3;
    [exact (Hs _ ".tar" ".bz2" eq_refl (or_introl eq_refl) H3) |].
  destruct (strings.HasSuffix (Path u) ".tbz") eqn:H4;
    [apply (Hs _ ".tbz" "" eq_refl); [cbn; tauto | exact H4] |].
  destruct (strings.HasSuffix (Path u) ".tbz2") eqn:H5;
    [apply (Hs _ ".tbz2" "" eq_refl); [cbn; tauto | exact H5] |].
  destruct (strings.HasSuffix (Path u) ".tar.xz") eqn:H6;
    [exact (Hs _ ".tar" ".xz" eq_refl (or_introl eq_refl) H6) |].
  destruct (strings.HasSuffix (Path u) ".txz") eqn:H7;
    [apply (Hs _ ".txz" "" eq_refl); [cbn; tauto | exact H7] |].
  destruct (strings.HasSuffix (Path u) ".tar.zst") eqn:H8;
    [exact (Hs _ ".tar" ".zst" eq_refl (or_introl eq_refl) H8) |].
  destruct (strings.HasSuffix (Path u) ".tzstd") eqn:H9;
    [apply (Hs _ ".tzstd" "" eq_refl); [cbn; tauto | exact H9] |].
  destruct (strings.HasSuffix (Path u) ".tar.lz") eqn:H10;
    [exact (Hs _ ".tar" ".lz" eq_refl (or_introl eq_refl) H10) |].
  destruct (strings.HasSuffix (Path u) ".tlz") eqn:H11;
    [apply (Hs _ ".tlz" "" eq_refl); [cbn; tauto | exact H11] |].
  destruct (strings.HasSuffix (Path u) ".tar.Z") eqn:H12;
    [exact (Hs _ ".tar" ".Z" eq_refl (or_introl eq_refl) H12) |].
  destruct (strings.HasSuffix (Path u) ".tZ") eqn:H13;
    [apply (Hs _ ".tZ" "" eq_refl); [cbn; tauto | exact H13] |].
  exfalso. now apply Hf.
Qed.

Lemma compressionFlag_implies_TAR_Match_witness :
  (ascii_only "/dist/archive.tar.xz"
   /\ strings.ToLower "/dist/archive.tar.xz" = "/dist/archive.tar.xz"
   /\ compressionFlag "/dist/archive.tar.xz" <> "-a")
  /\ Match TAR (path_only "/dist/archive.tar.xz") = true.
Proof.
  assert (Hf : compressionFlag "/dist/archive.tar.xz" <> "-a")
    by discriminate.
  split; [repeat split; try reflexivity; exact Hf |].
  exact (compressionFlag_implies_TAR_Match (path_only "/dist/archive.tar.xz")
           eq_refl eq_refl Hf).
Defined.

(** ** Outcomes of [Resolve] *)

Section ResolveOutcomes.

Context {lib : NetLib}.

(** How the mapper loop ends. *)
Lemma Resolve_mappers_outcome (ms : list Mapper) :
  forall (i : nat) (source : string),
    snd (Resolve_mappers ms i source) =
    match find (accepts source) ms with
    | Some m =>
        match url_Parse (fst (m source)) with
        | Some _ => Returned (fst (m source))
        | None =>
            Panicked ("mapper did not produce a valid URL: " ++ fst (m source))
        end
    | None => Returned source
    end.
Proof.
  induction ms as [|m ms IH]; intros i source; [reflexivity |].
  rewrite Resolve_mappers_cons. cbn [find].
  destruct (accepts source m); [reflexivity | apply IH].
Qed.

(** A successful [Resolve], read backwards. *)
Lemma Resolve_success_inv (f : Fetcher) (source : string) (r : option Resolver)
  (src : Source) (err : error) :
  snd (Resolve f source) = Returned (r, src, err) ->
  (url_Parse (candidate (mappers f) source) = None
   /\ r = None /\ src = zeroSource
   /\ err = Some ("invalid source "
                    ++ strconv_Quote (candidate (mappers f) source)))
  \/ exists u,
       url_Parse (candidate (mappers f) source) = Some u
       /\ match first_resolver (resolvers f) u with
          | Some res => r = Some res /\ src = split_subdir u /\ err = None
          | None =>
              r = None /\ src = zeroSource
              /\ err = Some ("unsupported source: " ++ URL_String u)
          end.
Proof.
  intros Hret.
  destruct (url_Parse (candidate (mappers f) source)) as [u|] eqn:Hp.
  - right. exists u. split; [reflexivity |].
    destruct (Resolve_when_parsed f source u Hp) as (O & _).
    rewrite O in Hret.
    destruct (first_resolver (resolvers f) u);
      injection Hret as <- <- <-; repeat split.
  - left. split; [reflexivity |]. rewrite Resolve_unfold in Hret.
    destruct (Resolve_mappers_log (mappers f) 0 source) as (_ & _ & _ & _ & O).
    destruct O as [O|((msg & O1) & _)].
    + rewrite O, Hp in Hret. injection Hret as <- <- <-. repeat split.
    + rewrite O1 in Hret. discriminate.
Qed.

(** X7.  [Resolve] panics exactly when a mapper matches and the output of
    the first one that does fails to parse; the message names that
    output, and no resolver's [Match] has been consulted. *)
Theorem Resolve_panics_on_unparsable_mapping (f : Fetcher) (source : string) :
  (forall m,
      find (accepts source) (mappers f) = Some m ->
      url_Parse (fst (m source)) = None ->
      snd (Resolve f source)
      = Panicked ("mapper did not produce a valid URL: " ++ fst (m source))
      /\ forall i u, ~ match_called (fst (Resolve f source)) i u)
  /\ (forall msg,
         snd (Resolve f source) = Panicked msg ->
         exists m,
           find (accepts source) (mappers f) = Some m
           /\ url_Parse (fst (m source)) = None
           /\ msg = "mapper did not produce a valid URL: " ++ fst (m source)).
Proof.
  pose proof (Resolve_mappers_outcome (mappers f) 0 source) as Ho.
  destruct (Resolve_mappers_log (mappers f) 0 source) as (_ & _ & _ & N & _).
  rewrite Resolve_unfold. split.
  - intros m Hf Hp. rewrite Hf, Hp in Ho. rewrite Ho. cbn [fst snd].
    split; [reflexivity | exact N].
  - intros msg. destruct (find (accepts source) (mappers f)) as [m|].
    + destruct (url_Parse (fst (m source))) as [u|] eqn:Hp; rewrite Ho.
      * rewrite Hp. cbn [snd].
        destruct (Resolve_resolvers_log (resolvers f) 0 u)
          as (_ & _ & _ & _ & O).
        rewrite O. discriminate.
      * cbn [snd]. intros H. injection H as <-. exists m. auto.
    + rewrite Ho. destruct (url_Parse source) as [u|]; cbn [snd].
      * destruct (Resolve_resolvers_log (resolvers f) 0 u)
          as (_ & _ & _ & _ & O).
        rewrite O. discriminate.
      * discriminate.
Qed.

(** X8.  Whatever [Resolve] returns is either a resolver with a [Source]
    that holds a URL and no error, or no resolver with the zero [Source]
    and an error: never a resolver together with an error, never a
    success without a URL. *)
Theorem Resolve_result_shape (f : Fetcher) (source : string)
  (r : option Resolver) (src : Source) (err : error) :
  snd (Resolve f source) = Returned (r, src, err) ->
  (exists res u, r = Some res /\ URL src = Some u /\ err = None
                 /\ In res (resolvers f))
  \/ (r = None /\ src = zeroSource /\ exists msg, err = Some msg).
Proof.
  intros Hret. destruct (Resolve_success_inv f source r src err Hret)
    as [(_ & -> & -> & ->)|(u & _ & H)].
  - right. repeat split. eexists. reflexivity.
  - destruct (first_resolver (resolvers f) u) as [res|] eqn:Hf.
    + destruct H as (-> & -> & ->). left.
      destruct (split_subdir_spec u) as (u' & Hu & _).
      exists res, u'. repeat split; [exact Hu |].
      exact (proj1 (find_some _ _ Hf)).
    + destruct H as (-> & -> & ->). right. repeat split.
      eexists. reflexivity.
Qed.

(** What comes before the first occurrence of a separator does not
    contain it. *)
Lemma first_occurrence_base (s sep base rest : string) :
  sep <> "" -> first_occurrence s sep base rest -> absent base sep.
Proof.
  intros Hsep [E M] pre post Hb.
  assert (Hs : s = pre ++ sep ++ (post ++ sep ++ rest)).
  { rewrite E, Hb, !append_assoc. reflexivity. }
  specialize (M _ _ Hs). rewrite Hb, !length_append in M.
  destruct sep; [congruence | simpl in M; lia].
Qed.

(** X9.  The path of the URL in a returned [Source] never contains
    [//]: everything from the first [//] on has been moved to
    [SubDir]. *)
Theorem Resolve_path_without_separator (f : Fetcher) (source : string)
  (r : Resolver) (src : Source) :
  snd (Resolve f source) = Returned (Some r, src, None) ->
  exists u', URL src = Some u' /\ absent (Path u') "//".
Proof.
  intros Hret. destruct (Resolve_success_inv f source _ _ _ Hret)
    as [(_ & H & _)|(u & _ & H)]; [discriminate |].
  destruct (first_resolver (resolvers f) u); [|destruct H; discriminate].
  destruct H as (_ & -> & _). unfold split_subdir.
  destruct (strings.Cut (Path u) "//") as [[base sub] ok] eqn:Hcut.
  destruct ok.
  - exists (with_Path u base). split; [reflexivity |].
    apply Cut_found in Hcut.
    assert (Hsep : "//" <> "") by discriminate.
    exact (first_occurrence_base _ _ _ _ Hsep Hcut).
  - exists u. split; [reflexivity |].
    exact (proj1 (Cut_not_found _ _ _ _ Hcut)).
Qed.

End ResolveOutcomes.

Lemma Resolve_panics_on_unparsable_mapping_witness :
  (find (accepts "%zz") [upper; lower] = Some upper
   /\ @url_Parse plain.lib (fst (upper "%zz")) = None)
  /\ snd (@Resolve plain.lib (New [any_path] [upper; lower]) "%zz")
     = Panicked "mapper did not produce a valid URL: http://first/%zz".
Proof.
  split; [split; reflexivity |].
  exact (proj1 (proj1 (@Resolve_panics_on_unparsable_mapping plain.lib
                         (New [any_path] [upper; lower]) "%zz")
                  upper eq_refl eq_refl)).
Defined.

Lemma Resolve_result_shape_witness :
  snd (@Resolve plain.lib (New [TAR; ZIP] []) "http://host/a.tgz//sub")
  = Returned (Some TAR,
              mkSource (Some (mkURL "http" "" None "host" "/a.tgz" "" false
                                    false "" "" "")) "sub",
              None)
  /\ ((exists res u,
          Some TAR = Some res
          /\ URL (mkSource (Some (mkURL "http" "" None "host" "/a.tgz" ""
                                        false false "" "" "")) "sub")
             = Some u
          /\ @None string = None /\ In res [TAR; ZIP])
      \/ (Some TAR = None
          /\ mkSource (Some (mkURL "http" "" None "host" "/a.tgz" "" false
                                   false "" "" "")) "sub" = zeroSource
          /\ exists msg, @None string = Some msg)).
Proof.
  split; [reflexivity |].
  exact (@Resolve_result_shape plain.lib (New [TAR; ZIP] [])
           "http://host/a.tgz//sub" _ _ _ eq_refl).
Defined.

Lemma Resolve_path_without_separator_witness :
  snd (@Resolve plain.lib (New [any_path] []) "http://host/a///b//c")
  = Returned (Some any_path,
              mkSource (Some (mkURL "http" "" None "host" "/a" "" false
                                    false "" "" "")) "/b//c",
              None)
  /\ exists u',
       Some (mkURL "http" "" None "host" "/a" "" false false "" "" "")
       = Some u'
       /\ absent (Path u') "//".
Proof.
  split; [reflexivity |].
  exact (@Resolve_path_without_separator plain.lib (New [any_path] [])
           "http://host/a///b//c" any_path
           (mkSource (Some (mkURL "http" "" None "host" "/a" "" false
                                  false "" "" "")) "/b//c")
           eq_refl).
Defined.

(** ** The default fetcher, shape by shape *)

Section DefaultShapes.

Context {lib : NetLib}.

Lemma path_like_not_GitHub (source : string) :
  path_like source ->
  accepts source GitHub = false /\ accepts source GitHubOrgRepo = false.
Proof.
  intros (c & t & -> & Hc). unfold accepts. split.
  - destruct Hc as [->|[->| ->]]; reflexivity.
  - rewrite GitHubOrgRepo_split. unfold org_repo_split. cbn [strings.span].
    destruct Hc as [->|[->| ->]]; reflexivity.
Qed.

(** X10.  For an input that [GitHub] or [GitHubOrgRepo] matches, the
    default [Resolve] does not depend on the file system: [FilePath]
    (mapper 2) is never consulted, and the whole execution is the same
    for any two file systems. *)
Theorem Default_GitHub_without_file_system (fs1 fs2 : FileSystem)
  (source : string) :
  accepts source GitHub = true \/ accepts source GitHubOrgRepo = true ->
  Resolve (@Default fs1) source = Resolve (@Default fs2) source
  /\ forall s, ~ mapper_called (fst (Resolve (@Default fs1) source)) 2 s.
Proof.
  intros Hacc. split.
  - unfold Resolve, Default. cbn [mappers resolvers].
    rewrite !Resolve_mappers_cons.
    destruct (accepts source GitHub); [reflexivity |].
    destruct (accepts source GitHubOrgRepo); [reflexivity |].
    destruct Hacc; discriminate.
  - intros s Hc.
    pose proof (Resolve_mappers_log (mappers (@Default fs1)) 0 source) as L.
    cbv zeta in L. destruct L as (_ & C & _ & _ & O).
    assert (Hm : mapper_called
                   (fst (Resolve_mappers (mappers (@Default fs1)) 0 source))
                   2 s).
    { revert Hc. rewrite Resolve_unfold. unfold mapper_called.
      destruct (snd (Resolve_mappers (mappers (@Default fs1)) 0 source))
        as [c|msg]; [|tauto].
      destruct (url_Parse c) as [u|]; cbn [fst]; intros H;
        apply in_app_or in H; destruct H as [H|H]; try exact H.
      - destruct H as [H|H]; [discriminate |].
        exfalso.
        destruct (Resolve_resolvers_log (resolvers (@Default fs1)) 0 u)
          as (_ & C2 & _).
        exact (C2 _ _ H).
      - destruct H as [H|[]]. discriminate. }
    apply C in Hm. destruct Hm as (_ & _ & Hall).
    destruct Hacc as [Ha|Ha].
    + specialize (Hall 0 GitHub ltac:(lia) eq_refl). congruence.
    + specialize (Hall 1 GitHubOrgRepo ltac:(lia) eq_refl). congruence.
Qed.

Lemma GitHub_candidate_prefix (fs : FileSystem) (source : string) :
  accepts source GitHub = true \/ accepts source GitHubOrgRepo = true ->
  strings.HasPrefix (candidate (mappers Default) source)
                    "git+https://github.com/" = true.
Proof.
  intros Hacc. unfold Default. cbn [mappers]. rewrite !candidate_cons.
  destruct (accepts source GitHub) eqn:Hg.
  - unfold accepts, GitHub in *.
    destruct (strings.HasPrefix source "github.com/") eqn:H1.
    + apply HasPrefix_inv in H1. destruct H1 as [t ->]. reflexivity.
    + destruct (strings.HasPrefix source "https://github.com/") eqn:H2;
        [|discriminate].
      apply HasPrefix_inv in H2. destruct H2 as [t ->]. reflexivity.
  - destruct Hacc as [Ha|Ha]; [discriminate |]. rewrite Ha.
    unfold accepts in Ha.
    destruct (GitHubOrgRepo_exact source) as [[_ E]|[_ E]];
      rewrite E in *; [reflexivity | discriminate].
Qed.

(** X11.  For an input that [GitHub] or [GitHubOrgRepo] matches, the
    candidate URL of the default chain begins with
    [git+https://github.com/]; when it parses with the scheme [git+https],
    the default [Resolve] returns the [Git] resolver, with either
    revision of [Git.Match]. *)
Theorem Default_shorthand_selects_Git (fs : FileSystem) (source : string)
  (u : url_URL) :
  accepts source GitHub = true \/ accepts source GitHubOrgRepo = true ->
  url_Parse (candidate (mappers Default) source) = Some u ->
  Scheme u = "git+https" ->
  strings.HasPrefix (candidate (mappers Default) source)
                    "git+https://github.com/" = true
  /\ snd (Resolve Default source) = Returned (Some Git, split_subdir u, None)
  /\ snd (Resolve git_rev2.Default source)
     = Returned (Some git_rev2.Git, split_subdir u, None).
Proof.
  intros Hacc Hp Hs. split; [now apply GitHub_candidate_prefix |]. split.
  - destruct (Resolve_when_parsed Default source u Hp) as (O & _).
    rewrite O. unfold first_resolver.
    cbn [resolvers Default find Match File Git]. rewrite Hs. reflexivity.
  - destruct (Resolve_when_parsed git_rev2.Default source u Hp) as (O & _).
    rewrite O. unfold first_resolver.
    cbn [resolvers git_rev2.Default find Match File git_rev2.Git].
    rewrite Hs. reflexivity.
Qed.

(** X12.  An input written like a path (it begins with [/], [~] or [.])
    is matched by neither GitHub mapper, so [FilePath] decides the
    candidate URL: its output when it matches, the input itself
    otherwise.  When [FilePath] matches and its output parses with the
    scheme [file], the default [Resolve] returns the [File] resolver. *)
Theorem Default_path_selects_File (fs : FileSystem) (source : string) :
  path_like source ->
  candidate (mappers Default) source
  = (if accepts source FilePath then fst (FilePath source) else source)
  /\ forall u,
       accepts source FilePath = true ->
       url_Parse (fst (FilePath source)) = Some u ->
       Scheme u = "file" ->
       snd (Resolve Default source)
       = Returned (Some File, split_subdir u, None).
Proof.
  intros Hpl. destruct (path_like_not_GitHub source Hpl) as [Hg Ho].
  assert (Hc : candidate (mappers Default) source
               = if accepts source FilePath then fst (FilePath source)
                 else source).
  { unfold Default. cbn [mappers]. rewrite !candidate_cons, Hg, Ho.
    reflexivity. }
  split; [exact Hc |]. intros u Ha Hp Hs.
  rewrite Ha in Hc. rewrite <- Hc in Hp.
  destruct (Resolve_when_parsed Default source u Hp) as (O & _).
  rewrite O. unfold first_resolver. cbn [resolvers Default find Match File].
  rewrite Hs. reflexivity.
Qed.

(** X13.  With the [Git.Match] of the revision that has [convertGitURL],
    the default resolvers dispatch a parsed candidate URL by scheme
    first and by path second: [file] goes to [File]; [git+https],
    [git+ssh] and [git] go to [Git]; any other scheme goes to [TAR] when
    the path contains a tar extension, otherwise to [ZIP] when the path
    ends with [.zip], and otherwise the source is unsupported. *)
Theorem Default_rev2_dispatch (fs : FileSystem) (source : string)
  (u : url_URL) :
  url_Parse (candidate (mappers git_rev2.Default) source) = Some u ->
  let out := snd (Resolve git_rev2.Default source) in
  (Scheme u = "file" -> out = Returned (Some File, split_subdir u, None))
  /\ (In (Scheme u) git_schemes ->
      out = Returned (Some git_rev2.Git, split_subdir u, None))
  /\ (Scheme u <> "file" -> ~ In (Scheme u) git_schemes ->
      (contains_tar_ext (Path u) ->
       out = Returned (Some TAR, split_subdir u, None))
      /\ (~ contains_tar_ext (Path u) -> ends_with (Path u) ".zip" ->
          out = Returned (Some ZIP, split_subdir u, None))
      /\ (~ contains_tar_ext (Path u) -> ~ ends_with (Path u) ".zip" ->
          out = Returned (None, zeroSource,
                          Some ("unsupported source: " ++ URL_String u)))).
Proof.
  intros Hp. cbv zeta.
  destruct (Resolve_when_parsed git_rev2.Default source u Hp) as (O & _).
  rewrite O. unfold first_resolver.
  cbn [resolvers git_rev2.Default find Match File git_rev2.Git].
  split; [|split].
  - intros ->. reflexivity.
  - intros [<-|[<-|[<-|[]]]]; reflexivity.
  - intros Hf Hg.
    destruct (String.eqb_spec (Scheme u) "file") as [E|_]; [contradiction |].
    assert (Hg' : (Scheme u =? "git+https") || (Scheme u =? "git+ssh")
                  || (Scheme u =? "git") = false).
    { destruct (String.eqb_spec (Scheme u) "git+https") as [E|_];
        [exfalso; apply Hg; rewrite E; cbn; tauto |].
      destruct (String.eqb_spec (Scheme u) "git+ssh") as [E|_];
        [exfalso; apply Hg; rewrite E; cbn; tauto |].
      destruct (String.eqb_spec (Scheme u) "git") as [E|_];
        [exfalso; apply Hg; rewrite E; cbn; tauto |].
      reflexivity. }
    rewrite Hg'.
    pose proof (TAR_Match_iff u) as Ht.
    pose proof (HasSuffix_iff (Path u) ".zip") as Hz.
    change (strings.HasSuffix (Path u) ".zip") with (Match ZIP u) in Hz.
    split; [|split].
    + intros H. apply Ht in H. rewrite H. reflexivity.
    + intros Hn H. apply Hz in H.
      destruct (Match TAR u); [exfalso; apply Hn, Ht; reflexivity |].
      rewrite H. reflexivity.
    + intros Hn Hnz.
      destruct (Match TAR u); [exfalso; apply Hn, Ht; reflexivity |].
      destruct (Match ZIP u); [exfalso; apply Hnz, Hz; reflexivity |].
      reflexivity.
Qed.

End DefaultShapes.

(** ** More on the file-path mapper *)

Section FilePathMore.

Context {fs : FileSystem}.

(** X14.  [FilePath] is idempotent on what it matches: its output
    begins with [file://], and mapping that output again returns it
    unchanged, with a match and without looking at the file system. *)
Theorem FilePath_idempotent (source : string) :
  snd (FilePath source) = true ->
  FilePath (fst (FilePath source)) = (fst (FilePath source), true).
Proof.
  intros Hm.
  assert (Hp : strings.HasPrefix (fst (FilePath source)) "file://" = true).
  { revert Hm. unfold FilePath.
    destruct (String.eqb source ""); [discriminate |].
    destruct (strings.HasPrefix source "file://") eqn:Hf;
      [intros _; exact Hf |].
    repeat match goal with
           | |- context [match ?x with _ => _ end] => destruct x
           end; cbn [fst snd]; try discriminate; reflexivity. }
  clear Hm. generalize dependent (fst (FilePath source)). intros out Hp.
  unfold FilePath. rewrite Hp.
  destruct out; [discriminate | reflexivity].
Qed.

(** X15.  The result of [FilePath] depends on the source only through
    the absolute path it names: two spellings of the same directory,
    relative, home-relative or absolute, map to the same URL. *)
Theorem FilePath_same_absolute (s1 s2 path : string) :
  s1 <> "" -> s2 <> "" ->
  strings.HasPrefix s1 "file://" = false ->
  strings.HasPrefix s2 "file://" = false ->
  absolute_of s1 path -> absolute_of s2 path ->
  FilePath s1 = FilePath s2.
Proof.
  intros N1 N2 F1 F2 A1 A2.
  rewrite (FilePath_absolute s1 path N1 F1 A1).
  rewrite (FilePath_absolute s2 path N2 F2 A2). reflexivity.
Qed.

End FilePathMore.

(** ** Worked resolutions with the default fetcher *)

Lemma Default_GitHub_without_file_system_witness :
  (accepts "block/getit?ref=main" GitHub = true
   \/ accepts "block/getit?ref=main" GitHubOrgRepo = true)
  /\ @Resolve plain.lib (@Default plain.fs) "block/getit?ref=main"
     = @Resolve plain.lib (@Default plain.fs_no_home) "block/getit?ref=main".
Proof.
  assert (H : accepts "block/getit?ref=main" GitHub = true
              \/ accepts "block/getit?ref=main" GitHubOrgRepo = true).
  { right. unfold accepts. rewrite GitHubOrgRepo_split. reflexivity. }
  split; [exact H |].
  exact (proj1 (@Default_GitHub_without_file_system plain.lib plain.fs
                  plain.fs_no_home "block/getit?ref=main" H)).
Defined.

Lemma Default_shorthand_selects_Git_witness :
  ((accepts "github.com/block/getit?ref=v1" GitHub = true
    \/ accepts "github.com/block/getit?ref=v1" GitHubOrgRepo = true)
   /\ @url_Parse plain.lib
        (candidate (mappers (@Default plain.fs))
                   "github.com/block/getit?ref=v1")
      = Some (mkURL "git+https" "" None "github.com" "/block/getit" ""
                    false false "ref=v1" "" "")
   /\ Scheme (mkURL "git+https" "" None "github.com" "/block/getit" ""
                    false false "ref=v1" "" "") = "git+https")
  /\ snd (@Resolve plain.lib (@git_rev2.Default plain.fs)
            "github.com/block/getit?ref=v1")
     = Returned (Some git_rev2.Git,
                 mkSource (Some (mkURL "git+https" "" None "github.com"
                                       "/block/getit" "" false false
                                       "ref=v1" "" "")) "",
                 None).
Proof.
  assert (H : accepts "github.com/block/getit?ref=v1" GitHub = true
              \/ accepts "github.com/block/getit?ref=v1" GitHubOrgRepo
                 = true) by (left; reflexivity).
  split; [repeat split; try reflexivity; exact H |].
  exact (proj2 (proj2 (@Default_shorthand_selects_Git plain.lib plain.fs
                         "github.com/block/getit?ref=v1"
                         (mkURL "git+https" "" None "github.com"
                                "/block/getit" "" false false "ref=v1" "" "")
                         H eq_refl eq_refl))).
Defined.

Lemma Default_path_selects_File_witness :
  (path_like "/srv/link"
   /\ accepts "/srv/link" (@FilePath plain.fs) = true
   /\ @url_Parse plain.lib (fst (@FilePath plain.fs "/srv/link"))
      = Some (mkURL "file" "" None "" "/srv/data" "" false false "" "" "")
   /\ Scheme (mkURL "file" "" None "" "/srv/data" "" false false "" "" "")
      = "file")
  /\ snd (@Resolve plain.lib (@Default plain.fs) "/srv/link")
     = Returned (Some File,
                 mkSource (Some (mkURL "file" "" None "" "/srv/data" ""
                                       false false "" "" "")) "",
                 None).
Proof.
  assert (H : path_like "/srv/link").
  { exists "/"%char, "srv/link". split; [reflexivity | now left]. }
  split; [repeat split; try reflexivity; exact H |].
  exact (proj2 (@Default_path_selects_File plain.lib plain.fs "/srv/link" H)
               (mkURL "file" "" None "" "/srv/data" "" false false "" "" "")
               eq_refl eq_refl eq_refl).
Defined.

Lemma Default_rev2_dispatch_witness :
  (@url_Parse plain.lib
     (candidate (mappers (@git_rev2.Default plain.fs)) "ftp://host/pkg.zip")
   = Some (mkURL "ftp" "" None "host" "/pkg.zip" "" false false "" "" "")
   /\ "ftp" <> "file" /\ ~ In "ftp" git_schemes
   /\ ~ contains_tar_ext "/pkg.zip" /\ ends_with "/pkg.zip" ".zip")
  /\ snd (@Resolve plain.lib (@git_rev2.Default plain.fs)
            "ftp://host/pkg.zip")
     = Returned (Some ZIP,
                 mkSource (Some (mkURL "ftp" "" None "host" "/pkg.zip" ""
                                       false false "" "" "")) "",
                 None).
Proof.
  assert (H1 : "ftp" <> "file") by discriminate.
  assert (H2 : ~ In "ftp" git_schemes).
  { intros [H|[H|[H|[]]]]; discriminate H. }
  assert (H3 : ~ contains_tar_ext "/pkg.zip").
  { intros H. apply (TAR_Match_iff (path_only "/pkg.zip")) in H.
    discriminate H. }
  assert (H4 : ends_with "/pkg.zip" ".zip") by (exists "/pkg"; reflexivity).
  split; [repeat split; try reflexivity; assumption |].
  exact (proj1 (proj2 (proj2 (proj2 (@Default_rev2_dispatch plain.lib
                                       plain.fs "ftp://host/pkg.zip"
                                       (mkURL "ftp" "" None "host" "/pkg.zip"
                                              "" false false "" "" "")
                                       eq_refl)) H1 H2)) H3 H4).
Defined.

Lemma FilePath_idempotent_witness :
  snd (@FilePath plain.fs "proj") = true
  /\ @FilePath plain.fs "file:///work/proj" = ("file:///work/proj", true).
Proof.
  split; [reflexivity |].
  exact (@FilePath_idempotent plain.fs "proj" eq_refl).
Defined.

Lemma FilePath_same_absolute_witness :
  ("proj" <> "" /\ "/work/proj" <> ""
   /\ strings.HasPrefix "proj" "file://" = false
   /\ strings.HasPrefix "/work/proj" "file://" = false
   /\ @absolute_of plain.fs "proj" "/work/proj"
   /\ @absolute_of plain.fs "/work/proj" "/work/proj")
  /\ @FilePath plain.fs "proj" = @FilePath plain.fs "/work/proj".
Proof.
  assert (N1 : "proj" <> "") by discriminate.
  assert (N2 : "/work/proj" <> "") by discriminate.
  assert (A1 : @absolute_of plain.fs "proj" "/work/proj").
  { apply (@absolute_made plain.fs "proj" "proj" "/work/proj");
      [apply expanded_same | |]; reflexivity. }
  assert (A2 : @absolute_of plain.fs "/work/proj" "/work/proj").
  { apply (@absolute_already plain.fs "/work/proj" "/work/proj");
      [apply expanded_same |]; reflexivity. }
  split; [repeat split; assumption || reflexivity |].
  exact (@FilePath_same_absolute plain.fs "proj" "/work/proj" "/work/proj"
           N1 N2 eq_refl eq_refl A1 A2).
Defined.

Section InvalidSource.

Context {lib : NetLib}.

(** X17.  The [invalid source] error is only ever about the original
    input: when [Resolve] returns and the candidate URL did not parse, no
    mapper had matched and the error quotes the input as given (a mapped
    string that does not parse makes [Resolve] panic instead). *)
Theorem Resolve_invalid_source_is_input (f : Fetcher) (source : string)
  (r : option Resolver) (src : Source) (err : error) :
  snd (Resolve f source) = Returned (r, src, err) ->
  url_Parse (candidate (mappers f) source) = None ->
  find (accepts source) (mappers f) = None
  /\ r = None /\ src = zeroSource
  /\ err = Some ("invalid source " ++ strconv_Quote source).
Proof.
  intros Hret Hp. rewrite Resolve_unfold in Hret.
  pose proof (Resolve_mappers_outcome (mappers f) 0 source) as Ho.
  unfold candidate in Hp.
  destruct (find (accepts source) (mappers f)) as [m|].
  - rewrite Hp in Ho. rewrite Ho in Hret. discriminate.
  - rewrite Ho, Hp in Hret. injection Hret as <- <- <-. repeat split.
Qed.

End InvalidSource.

Lemma Resolve_invalid_source_is_input_witness :
  (snd (@Resolve plain.lib (@Default plain.fs) "%zz")
   = Returned (None, zeroSource,
               Some ("invalid source " ++ plain.Quote "%zz"))
   /\ @url_Parse plain.lib (candidate (mappers (@Default plain.fs)) "%zz")
      = None)
  /\ find (accepts "%zz") (mappers (@Default plain.fs)) = None.
Proof.
  split; [split; reflexivity |].
  exact (proj1 (@Resolve_invalid_source_is_input plain.lib
                  (@Default plain.fs) "%zz" _ _ _ eq_refl eq_refl)).
Defined.

(** [TestCompressionFlag]. *)
Example TestCompressionFlag :
  map compressionFlag
      ["/archive.tar.gz"; "/archive.tgz"; "/archive.TAR.GZ";
       "/archive.tar.bz2"; "/archive.tbz"; "/archive.tbz2";
       "/archive.tar.xz"; "/archive.txz"; "/archive.tar.zst";
       "/archive.tzstd"; "/archive.tar.lz"; "/archive.tlz";
       "/archive.tar.Z"; "/archive.tZ"; "/archive.tar";
       "/archive.tar.unknown"]
  = ["-z"; "-z"; "-z"; "-j"; "-j"; "-j"; "-J"; "-J"; "--zstd"; "--zstd";
     "--lzip"; "--lzip"; "-a"; "-a"; "-a"; "-a"].
Proof. vm_compute. reflexivity. Qed.
